(** * ts-dns: the configuration loader [cmd/conf/conf.go]

  A shallow embedding of package [conf]: the TOML-backed structures
  [Group], [Cache] and [Conf], their methods [GenIPSet], [GenCallers],
  [SetDefault], [GenCache], [GenHostsReader], and [NewHandler].

  Go strings are byte strings and are modelled by [string]; Go's [int]
  and [time.Duration] are modelled by [Z] (with the 64-bit wrap-around of
  the [Duration] product written out); Go maps that are ranged over are
  modelled by association lists standing for the order in which the
  runtime enumerates them; the handler's group map, which is only
  written and looked up, is a [gmap]. *)

From Stdlib Require Import ZArith Ascii String List Bool Lia.
From stdpp Require Import base option list gmap strings.

Local Open Scope string_scope.
Local Open Scope list_scope.
Local Open Scope Z_scope.

(** ** Package [strings] of the Go standard library (the functions used) *)

Module GoStrings.

(** [s[i:j]] on a byte string, for [i <= j <= len(s)]. *)
Definition slice (s : string) (i j : nat) : string :=
  String.substring i (j - i) s.

(** [strings.HasPrefix(s, prefix)]. *)
Definition HasPrefix (s prefix : string) : bool := String.prefix prefix s.

(** [strings.HasSuffix(s, suffix)]:
    [len(s) >= len(suffix) && s[len(s)-len(suffix):] == suffix]. *)
Definition HasSuffix (s suffix : string) : bool :=
  (String.length suffix <=? String.length s)%nat
  && String.eqb
       (slice s (String.length s - String.length suffix) (String.length s))
       suffix.

(** [strings.Contains(s, substr)]. *)
Fixpoint Contains (s substr : string) : bool :=
  String.prefix substr s
  || match s with
     | EmptyString => false
     | String _ s' => Contains s' substr
     end.

(** [strings.Split(s, sep)] for a non-empty separator: [s] is cut at
    every (leftmost, non-overlapping) occurrence of [sep].  [skip]
    counts the bytes of a separator occurrence still to be dropped and
    [cur] is the piece being collected. *)
Fixpoint Split_go (sep : string) (skip : nat) (cur : string) (s : string)
  : list string :=
  match s with
  | EmptyString => [cur]
  | String c s' =>
      match skip with
      | S k => Split_go sep k cur s'
      | O =>
          if String.prefix sep s
          then cur :: Split_go sep (String.length sep - 1) "" s'
          else Split_go sep 0 (cur +:+ String c "") s'
      end
  end.

Definition Split (s sep : string) : list string := Split_go sep 0 "" s.

(** [strings.Join(elems, sep)]. *)
Definition Join (elems : list string) (sep : string) : string :=
  String.concat sep elems.

End GoStrings.

(** ** Results of fallible Go code *)

(** A Go [error], identified with its message. *)
Definition error : Type := string.

(** What a library call that returns [(value, err)] gives: a value with a
    nil error, or a non-nil error. *)
Inductive fallible (A : Type) : Type :=
| Success (a : A)
| Failure (err : error).
Arguments Success {A} a.
Arguments Failure {A} err.

(** What a function of package [conf] that returns [(value, err)] can do:
    return a value with a nil error, return a non-nil error (and a nil
    value), or not return at all because the runtime panics. *)
Inductive result (A : Type) : Type :=
| Ok (a : A)
| Error (err : error)
| Panic (msg : string).
Arguments Ok {A} a.
Arguments Error {A} err.
Arguments Panic {A} msg.

(** The message of the runtime panic raised by a field access through a
    nil pointer. *)
Definition nilDereference : string :=
  "runtime error: invalid memory address or nil pointer dereference".

(** ** Package [time] *)

Module time.

(** [time.Second], in nanoseconds. *)
Definition Second : Z := 1000000000.

(** Two's complement wrap-around of a 64-bit signed integer. *)
Definition wrap64 (z : Z) : Z := (z + 2 ^ 63) mod 2 ^ 64 - 2 ^ 63.

(** [time.Duration(n) * d]: an [int64] product. *)
Definition mul (n d : Z) : Z := wrap64 (n * d).

End time.

(** ** Package [regexp]: the fragment needed for the DoH address pattern *)

Module regexp.

(** Regular expressions over bytes.  [Class p] matches one byte
    satisfying [p]. *)
Inductive Regexp : Type :=
| NoMatch : Regexp
| EmptyMatch : Regexp
| Class (p : ascii → bool) : Regexp
| Concat (r1 r2 : Regexp) : Regexp
| Alternate (r1 r2 : Regexp) : Regexp
| Star (r : Regexp) : Regexp.

(** [r+] *)
Definition Plus (r : Regexp) : Regexp := Concat r (Star r).

(** A literal byte string. *)
Fixpoint Literal (s : string) : Regexp :=
  match s with
  | EmptyString => EmptyMatch
  | String c s' => Concat (Class (Ascii.eqb c)) (Literal s')
  end.

(** [.] without the [s] flag: any code point but a line feed.  The text is
    read as UTF-8, a byte that starts no well-formed sequence counting as
    one code point; the pattern has [.] only under [+] and between two
    ASCII literals, so that on bytes it stands for any byte but a line
    feed. *)
Definition AnyCharNotNL : Regexp :=
  Class (fun c => negb (Ascii.eqb c "010"%char)).

Fixpoint nullable (r : Regexp) : bool :=
  match r with
  | NoMatch => false
  | EmptyMatch => true
  | Class _ => false
  | Concat r1 r2 => nullable r1 && nullable r2
  | Alternate r1 r2 => nullable r1 || nullable r2
  | Star _ => true
  end.

(** Brzozowski derivative of [r] by the byte [c]. *)
Fixpoint deriv (c : ascii) (r : Regexp) : Regexp :=
  match r with
  | NoMatch => NoMatch
  | EmptyMatch => NoMatch
  | Class p => if p c then EmptyMatch else NoMatch
  | Concat r1 r2 =>
      if nullable r1
      then Alternate (Concat (deriv c r1) r2) (deriv c r2)
      else Concat (deriv c r1) r2
  | Alternate r1 r2 => Alternate (deriv c r1) (deriv c r2)
  | Star r1 => Concat (deriv c r1) (Star r1)
  end.

(** [MatchString] for a pattern written [^r$], i.e. anchored at both
    ends (no [m] flag): the whole text has to match [r]. *)
Fixpoint MatchString (r : Regexp) (s : string) : bool :=
  match s with
  | EmptyString => nullable r
  | String c s' => MatchString (deriv c r) s'
  end.

(** Denotation of a regular expression, the reference for the matcher. *)
Inductive Matches : Regexp → string → Prop :=
| MEmpty : Matches EmptyMatch ""
| MClass p c : p c = true → Matches (Class p) (String c "")
| MConcat r1 r2 s1 s2 :
    Matches r1 s1 → Matches r2 s2 → Matches (Concat r1 r2) (s1 +:+ s2)
| MAltL r1 r2 s : Matches r1 s → Matches (Alternate r1 r2) s
| MAltR r1 r2 s : Matches r2 s → Matches (Alternate r1 r2) s
| MStarNil r : Matches (Star r) ""
| MStarCons r s1 s2 :
    Matches r s1 → Matches (Star r) s2 → Matches (Star r) (s1 +:+ s2).

End regexp.

(** ** Package [proxy] ([golang.org/x/net/proxy]) *)

Module proxy.

(** A dialer: the direct one, or a SOCKS5 dialer forwarding through
    another dialer.  A nil [proxy.Dialer] is [None] in [option Dialer]. *)
Inductive Dialer : Type :=
| Direct : Dialer
| SOCKS5Dialer (network address : string) (forward : Dialer) : Dialer.

(** [proxy.SOCKS5(network, address, nil, forward)]; its error result is
    discarded by the caller and it always yields a dialer. *)
Definition SOCKS5 (network address : string) (forward : Dialer)
  : option Dialer :=
  Some (SOCKS5Dialer network address forward).

End proxy.

(** ** Package [outbound]: the upstream callers *)

Module outbound.

(** Modelled from the spec: package [outbound] is not part of the
    sources at hand.  A caller's identity is its transport kind, its
    upstream address, the TLS server name for DoT, and its optional
    dialer; the three constructors are the ones [GenCallers] calls. *)
Inductive Caller : Type :=
| DNSCaller (address network : string) (dialer : option proxy.Dialer)
| DoTCaller (address serverName : string) (dialer : option proxy.Dialer)
| DoHCaller (url : string) (dialer : option proxy.Dialer).

(** Modelled from the spec: [outbound.NewDNSCaller(address, network,
    dialer)], the plain-DNS caller over UDP or TCP. *)
Definition NewDNSCaller := DNSCaller.

(** Modelled from the spec: [outbound.NewDoTCaller(address, serverName,
    dialer)], the DNS-over-TLS caller with its peer server name. *)
Definition NewDoTCaller := DoTCaller.

(** Modelled from the spec: [outbound.NewDoHCaller(url, dialer)], the
    DNS-over-HTTPS caller. *)
Definition NewDoHCaller := DoHCaller.

(** Modelled from the spec: the transport kind of a caller. *)
Inductive Transport : Type := PlainDNS | DNSOverTLS | DNSOverHTTPS.

(** Modelled from the spec: the transport kind each variant stands for. *)
Definition transport (c : Caller) : Transport :=
  match c with
  | DNSCaller _ _ _ => PlainDNS
  | DoTCaller _ _ _ => DNSOverTLS
  | DoHCaller _ _ => DNSOverHTTPS
  end.

(** Modelled from the spec: the tests of a caller's transport kind. *)
Definition isPlainDNS (c : Caller) : bool :=
  match transport c with PlainDNS => true | _ => false end.

Definition isDoT (c : Caller) : bool :=
  match transport c with DNSOverTLS => true | _ => false end.

Definition isDoH (c : Caller) : bool :=
  match transport c with DNSOverHTTPS => true | _ => false end.

End outbound.

(** ** Package [ipset] ([github.com/janeczku/go-ipset]) *)

Module ipset.

(** [ipset.Params]: only [Timeout] is set by the configuration loader. *)
Record Params : Type := { Timeout : Z }.

(** The handle [ipset.New] returns. *)
Record IPSet : Type := { Name : string; HashType : string; SetParams : Params }.

End ipset.

(** ** Package [matcher]: adblock-style domain rules *)

Module matcher.

(** Modelled from the spec: package [matcher] is not part of the sources
    at hand.  A rule is a domain pattern; a leading [.] or [*.] makes it
    match strict subdomains only, and an exclusion prefix negates it. *)
Record Rule : Type :=
  { exclusion : bool; subdomainOnly : bool; pattern : string }.

(** Modelled from the spec: the matcher of package [matcher], a rule set
    that is immutable once loaded. *)
Record ABPlus : Type := { rules : list Rule }.

(** Modelled from the spec: a blank line holds white space only. *)
Fixpoint isBlank (line : string) : bool :=
  match line with
  | EmptyString => true
  | String c s => Ascii.is_space c && isBlank s
  end.

(** Modelled from the spec: bytes [n..] of [s]. *)
Definition dropBytes (n : nat) (s : string) : string :=
  GoStrings.slice s n (String.length s).

(** Modelled from the spec: one line of a rule source.  Blank lines and
    comments are skipped, and so is a malformed line (one with no domain
    left).  The grammar is the adblock one: [!] starts a comment and [@@]
    is the exclusion prefix. *)
Definition parseLine (line : string) : option Rule :=
  if isBlank line then None
  else if GoStrings.HasPrefix line "!" then None
  else
    let '(excl, body) :=
      if GoStrings.HasPrefix line "@@" then (true, dropBytes 2 line)
      else (false, line) in
    let '(sub, dom) :=
      if GoStrings.HasPrefix body "*." then (true, dropBytes 2 body)
      else if GoStrings.HasPrefix body "." then (true, dropBytes 1 body)
      else (false, body) in
    if String.eqb dom "" then None
    else Some {| exclusion := excl; subdomainOnly := sub; pattern := dom |}.

(** Modelled from the spec: [matcher.NewABPByText], one rule per line. *)
Definition NewABPByText (text : string) : ABPlus :=
  {| rules := omap parseLine (GoStrings.Split text (String "010" "")) |}.

(** Modelled from the spec: ASCII lower-casing of one byte. *)
Definition lowerByte (c : ascii) : ascii :=
  let n := nat_of_ascii c in
  if ((65 <=? n) && (n <=? 90))%nat then ascii_of_nat (n + 32) else c.

(** Modelled from the spec: ASCII lower-casing of a name. *)
Fixpoint lower (s : string) : string :=
  match s with
  | EmptyString => EmptyString
  | String c s' => String (lowerByte c) (lower s')
  end.

(** Modelled from the spec: the query key's name is lower case and
    insensitive to a trailing dot. *)
Definition normalize (domain : string) : string :=
  let d := lower domain in
  if GoStrings.HasSuffix d "." then GoStrings.slice d 0 (String.length d - 1)
  else d.

(** Modelled from the spec: a plain rule matches the query equal to it or
    ending with [.] followed by it; a subdomain-only rule matches only
    the latter. *)
Definition ruleHits (r : Rule) (query : string) : bool :=
  GoStrings.HasSuffix query ("." +:+ pattern r)
  || (negb (subdomainOnly r) && String.eqb query (pattern r)).

(** Modelled from the spec: [Match(domain)].  The first rule that hits,
    in rule-set order, decides; no rule hitting gives [false]. *)
Definition Match (m : ABPlus) (domain : string) : bool :=
  match List.find (fun r => ruleHits r (normalize domain)) (rules m) with
  | Some r => negb (exclusion r)
  | None => false
  end.

(** Modelled from the spec: [matcher.NewABPByFile].  The rule source is a
    text resource read once; a source that cannot be read is an error.
    The spec gives no meaning to the second argument of the call, which is
    kept and not interpreted. *)
Definition NewABPByFile (readFile : string → fallible string)
    (filename : string) (flag : bool) : fallible ABPlus :=
  match readFile filename with
  | Success text => Success (NewABPByText text)
  | Failure err => Failure err
  end.

End matcher.

(** ** Package [cache]: the response cache and the CN-IP set *)

Module cache.

(** Modelled from the spec: the query key (name, record type, class). *)
Record QueryKey : Type := { qname : string; qtype : Z; qclass : Z }.

(** Modelled from the spec: equality of query keys. *)
Definition keyEqb (k1 k2 : QueryKey) : bool :=
  String.eqb (qname k1) (qname k2)
  && (qtype k1 =? qtype k2) && (qclass k1 =? qclass k2).

(** Modelled from the spec: of a response, the cache reads the TTLs (in
    seconds) of the answer's resource records. *)
Record Response : Type := { answerTTLs : list Z; wire : string }.

(** Modelled from the spec: a cache entry, with its absolute expiry
    instant (nanoseconds). *)
Record Entry : Type :=
  { key : QueryKey; response : Response; expiry : Z }.

(** Modelled from the spec: the cache [cache.DNSCache], with its bounds
    and its entries, oldest first. *)
Record DNSCache : Type :=
  { size : Z; minTTL : Z; maxTTL : Z; entries : list Entry }.

(** Modelled from the spec: [cache.NewDNSCache(size, minTTL, maxTTL)]. *)
Definition NewDNSCache (size minTTL maxTTL : Z) : DNSCache :=
  {| size := size; minTTL := minTTL; maxTTL := maxTTL; entries := [] |}.

(** Modelled from the spec: the origin TTL of a response, the minimum TTL
    across the answer's records, or a default for an empty answer. *)
Definition originTTL (dflt : Z) (r : Response) : Z :=
  match answerTTLs r with
  | [] => dflt
  | t :: ts => time.mul (fold_left Z.min ts t) time.Second
  end.

(** Modelled from the spec: clamping into [[lo, hi]]. *)
Definition clamp (x lo hi : Z) : Z :=
  if x <? lo then lo else if hi <? x then hi else x.

(** Modelled from the spec: [Get(key)] at instant [now]; a miss when
    caching is disabled, when the key is absent, or when the entry has
    expired. *)
Definition Get (c : DNSCache) (now : Z) (k : QueryKey) : option Response :=
  if size c <=? 0 then None
  else
    match List.find (fun e => keyEqb (key e) k) (entries c) with
    | Some e => if now <? expiry e then Some (response e) else None
    | None => None
    end.

(** Modelled from the spec: [Set(key, response)] at instant [now]; a no-op
    when caching is disabled; otherwise the entry for the key is replaced,
    the oldest entries are reclaimed to keep to the capacity, and the new
    entry expires at [now + clamp(origin TTL, minTTL, maxTTL)]. *)
Definition Set_ (dflt : Z) (c : DNSCache) (now : Z) (k : QueryKey)
    (r : Response) : DNSCache :=
  if size c <=? 0 then c
  else
    let ttl := clamp (originTTL dflt r) (minTTL c) (maxTTL c) in
    let others := List.filter (fun e => negb (keyEqb (key e) k)) (entries c) in
    let kept := skipn (length others + 1 - Z.to_nat (size c)) others in
    {| size := size c; minTTL := minTTL c; maxTTL := maxTTL c;
       entries := kept ++ [{| key := k; response := r; expiry := now + ttl |}] |}.

(** Modelled from the spec: the IP set membership structure, built once
    from a CIDR list; the configuration loader only constructs it. *)
Record RamSet : Type := { cidrs : list string }.

(** Modelled from the spec: [cache.NewRamSetByFile]; a list that cannot
    be read is an error. *)
Definition NewRamSetByFile (readFile : string → fallible string)
    (filename : string) : fallible RamSet :=
  match readFile filename with
  | Success text =>
      Success {| cidrs := List.filter (fun l => negb (matcher.isBlank l))
                            (GoStrings.Split text (String "010" "")) |}
  | Failure err => Failure err
  end.

End cache.

(** ** Package [hosts]: static overrides *)

Module hosts.

(** Modelled from the spec: a hosts source is backed by inline text or by
    a file with a reload cadence (zero for no reload). *)
Inductive Reader : Type :=
| TextReader (text : string)
| FileReader (filename content : string) (reloadTick : Z).

(** Modelled from the spec: [hosts.NewReaderByText]. *)
Definition NewReaderByText (text : string) : Reader := TextReader text.

(** Modelled from the spec: [hosts.NewReaderByFile]; a file that cannot be
    read is an error. *)
Definition NewReaderByFile (readFile : string → fallible string)
    (filename : string) (reloadTick : Z) : fallible Reader :=
  match readFile filename with
  | Success content => Success (FileReader filename content reloadTick)
  | Failure err => Failure err
  end.

End hosts.

(** ** Package [inbound]: the handler and its groups *)

Module inbound.

(** Modelled from the spec: [inbound.Group], with the fields the
    configuration loader fills. *)
Record Group : Type :=
  { Callers : list outbound.Caller;
    Concurrent : bool;
    Matcher : matcher.ABPlus;
    IPSet : option ipset.IPSet }.

(** Modelled from the spec: [inbound.Handler], with the fields the
    configuration loader fills (its [Mux] is a fresh lock and carries no
    data). *)
Record Handler : Type :=
  { Listen : string;
    GFWMatcher : matcher.ABPlus;
    CNIP : cache.RamSet;
    HostsReaders : list hosts.Reader;
    Cache : cache.DNSCache;
    Groups : gmap string Group }.

End inbound.

(** ** Package [log] ([github.com/Sirupsen/logrus]) *)

Module log.

Inductive Level : Type := ErrorLevel | WarnLevel.

(** One line written to the logger. *)
Record Entry : Type :=
  { level : Level; fields : list (string * string); message : string }.

End log.

(** ** Fallible code that writes to the log *)

(** A computation yields a [result] and the log entries it wrote, in
    order. *)
Definition M (A : Type) : Type := (result A * list log.Entry)%type.

Definition ret {A : Type} (a : A) : M A := (Ok a, []).

Definition bind {A B : Type} (m : M A) (k : A → M B) : M B :=
  match m with
  | (Ok a, l) => let '(r, l') := k a in (r, l ++ l')
  | (Error err, l) => (Error err, l)
  | (Panic msg, l) => (Panic msg, l)
  end.

Definition emit (e : log.Entry) : M unit := (Ok tt, [e]).

Definition lift {A : Type} (r : result A) : M A := (r, []).

Declare Scope conf_scope.
Delimit Scope conf_scope with conf.
Notation "'do' x <- m ; k" := (bind m (fun x => k))
  (at level 10, x name, m at level 100, k at level 200) : conf_scope.
Notation "m ;; k" := (bind m (fun _ => k))
  (at level 100, k at level 200, right associativity) : conf_scope.

(** ** Package [conf] *)

Module conf.

Local Open Scope conf_scope.

(** [Group]: one [groups] section of the configuration file. *)
Record Group : Type :=
  { Socks5 : string;
    IPSet : string;
    IPSetTTL : Z;
    DNS : list string;
    DoT : list string;
    DoH : list string;
    Concurrent : bool;
    Rules : list string }.

(** [Cache]: the [cache] section of the configuration file. *)
Record Cache : Type := { Size : Z; MinTTL : Z; MaxTTL : Z }.

(** [Conf]: the whole configuration file.  [ConfCache] is the field
    [Cache *Cache], nil ([None]) when the file has no [cache] section.
    [Hosts] and [Groups] are Go maps that are only ranged over; each is
    given as the sequence of its entries in the order the runtime
    enumerates them. *)
Record Conf : Type :=
  { Listen : string;
    GFWList : string;
    CNIP : string;
    HostsFiles : list string;
    Hosts : list (string * string);
    ConfCache : option Cache;
    Groups : list (string * Group) }.

(** What the loader reaches outside the process: the TOML decoder applied
    to a file, the file system, and the kernel's IP sets. *)
Record Env : Type :=
  { DecodeFile : string → fallible Conf;
    ReadFile : string → fallible string;
    ipsetNew : string → string → ipset.Params → fallible ipset.IPSet }.

(** [GenIPSet]: the group's IP set, nil when none is configured. *)
Definition GenIPSet (env : Env) (conf : Group)
  : fallible (option ipset.IPSet) :=
  if negb (String.eqb (IPSet conf) "") then
    let param := {| ipset.Timeout := IPSetTTL conf |} in
    match ipsetNew env (IPSet conf) "hash:ip" param with
    | Failure err => Failure err
    | Success ipSet => Success (Some ipSet)
    end
  else Success None.

(** The dialer [GenCallers] gives to every caller of the group. *)
Definition GenDialer (conf : Group) : option proxy.Dialer :=
  if negb (String.eqb (Socks5 conf) "")
  then proxy.SOCKS5 "tcp" (Socks5 conf) proxy.Direct
  else None.

(** Body of the loop over [conf.DNS]. *)
Definition dnsLoop (dialer : option proxy.Dialer)
    (callers : list outbound.Caller) (addr : string) : list outbound.Caller :=
  let network := "udp" in
  let '(addr, network) :=
    if GoStrings.HasSuffix addr "/tcp"
    then (GoStrings.slice addr 0 (String.length addr - 4), "tcp")
    else (addr, network) in
  if negb (String.eqb addr "") then
    let addr :=
      if negb (GoStrings.Contains addr ":") then addr +:+ ":53" else addr in
    callers ++ [outbound.NewDNSCaller addr network dialer]
  else callers.

(** Body of the loop over [conf.DoT]. *)
Definition dotLoop (dialer : option proxy.Dialer)
    (callers : list outbound.Caller) (addr : string) : list outbound.Caller :=
  match GoStrings.Split addr "@" with
  | [addr; serverName] =>
      if negb (String.eqb addr "") && negb (String.eqb serverName "") then
        let addr :=
          if negb (GoStrings.Contains addr ":") then addr +:+ ":853"
          else addr in
        callers ++ [outbound.NewDoTCaller addr serverName dialer]
      else callers
  | _ => callers
  end.

(** [regexp.MustCompile(`^https://.+/dns-query$`)]. *)
Definition dohReg : regexp.Regexp :=
  regexp.Concat (regexp.Literal "https://")
    (regexp.Concat (regexp.Plus regexp.AnyCharNotNL)
       (regexp.Literal "/dns-query")).

(** Body of the loop over [conf.DoH]. *)
Definition dohLoop (dialer : option proxy.Dialer)
    (callers : list outbound.Caller) (addr : string) : list outbound.Caller :=
  if regexp.MatchString dohReg addr
  then callers ++ [outbound.NewDoHCaller addr dialer]
  else callers.

(** [GenCallers]: the callers of a group, plain DNS first, then DoT, then
    DoH, each in the order of its list. *)
Definition GenCallers (conf : Group) : list outbound.Caller :=
  let dialer := GenDialer conf in
  let callers := [] in
  let callers := fold_left (dnsLoop dialer) (DNS conf) callers in
  let callers := fold_left (dotLoop dialer) (DoT conf) callers in
  let callers := fold_left (dohLoop dialer) (DoH conf) callers in
  callers.

(** The assignments [conf.Listen = v], [conf.GFWList = v], [conf.CNIP = v],
    [conf.Cache = v] and [conf.HostsFiles = v]. *)
Definition setListen (v : string) (conf : Conf) : Conf :=
  {| Listen := v; GFWList := GFWList conf; CNIP := CNIP conf;
     HostsFiles := HostsFiles conf; Hosts := Hosts conf;
     ConfCache := ConfCache conf; Groups := Groups conf |}.

Definition setGFWList (v : string) (conf : Conf) : Conf :=
  {| Listen := Listen conf; GFWList := v; CNIP := CNIP conf;
     HostsFiles := HostsFiles conf; Hosts := Hosts conf;
     ConfCache := ConfCache conf; Groups := Groups conf |}.

Definition setCNIP (v : string) (conf : Conf) : Conf :=
  {| Listen := Listen conf; GFWList := GFWList conf; CNIP := v;
     HostsFiles := HostsFiles conf; Hosts := Hosts conf;
     ConfCache := ConfCache conf; Groups := Groups conf |}.

Definition setConfCache (v : option Cache) (conf : Conf) : Conf :=
  {| Listen := Listen conf; GFWList := GFWList conf; CNIP := CNIP conf;
     HostsFiles := HostsFiles conf; Hosts := Hosts conf;
     ConfCache := v; Groups := Groups conf |}.

Definition setHostsFiles (v : list string) (conf : Conf) : Conf :=
  {| Listen := Listen conf; GFWList := GFWList conf; CNIP := CNIP conf;
     HostsFiles := v; Hosts := Hosts conf;
     ConfCache := ConfCache conf; Groups := Groups conf |}.

(** [SetDefault]: defaults for some fields. *)
Definition SetDefault (conf : Conf) : Conf :=
  let conf :=
    if String.eqb (Listen conf) "" then setListen ":53" conf else conf in
  let conf :=
    if String.eqb (GFWList conf) "" then setGFWList "gfwlist.txt" conf
    else conf in
  let conf :=
    if String.eqb (CNIP conf) "" then setCNIP "cnip.txt" conf else conf in
  conf.

(** [GenCache]: the cache built from the [cache] section.  The method
    writes the defaults into [conf.Cache]; the configuration it leaves
    behind is returned with the cache.  Reading [conf.Cache.Size] through
    a nil [conf.Cache] panics. *)
Definition GenCache (conf : Conf) : result (Conf * cache.DNSCache) :=
  match ConfCache conf with
  | None => Panic nilDereference
  | Some c =>
      let c :=
        if Size c =? 0
        then {| Size := 4096; MinTTL := MinTTL c; MaxTTL := MaxTTL c |}
        else c in
      let c :=
        if MinTTL c =? 0
        then {| Size := Size c; MinTTL := 60; MaxTTL := MaxTTL c |}
        else c in
      let c :=
        if MaxTTL c =? 0
        then {| Size := Size c; MinTTL := MinTTL c; MaxTTL := 86400 |}
        else c in
      let minTTL := time.mul (MinTTL c) time.Second in
      let maxTTL := time.mul (MaxTTL c) time.Second in
      Ok (setConfCache (Some c) conf, cache.NewDNSCache (Size c) minTTL maxTTL)
  end.

(** Body of the loop over [conf.HostsFiles]. *)
Definition hostsFileLoop (env : Env) (readers : list hosts.Reader)
    (filename : string) : M (list hosts.Reader) :=
  match hosts.NewReaderByFile (ReadFile env) filename 0 with
  | Failure err =>
      emit {| log.level := log.WarnLevel;
              log.fields := [("file", filename)];
              log.message := "read hosts error: " +:+ err |} ;;
      ret readers
  | Success reader => ret (readers ++ [reader])
  end.

(** A [for ... range] loop whose body may return early. *)
Fixpoint forRange {A S : Type} (body : S → A → M S) (l : list A) (s : S)
  : M S :=
  match l with
  | [] => ret s
  | x :: l' => do s' <- body s x; forRange body l' s'
  end.

(** [GenHostsReader]: one reader for the inline [hosts] records when there
    are any, then one for each hosts file that could be read. *)
Definition GenHostsReader (env : Env) (conf : Conf) : M (list hosts.Reader) :=
  let lines :=
    fold_left (fun lines '(hostname, ip) => lines ++ [ip +:+ " " +:+ hostname])
      (Hosts conf) [] in
  let readers :=
    if (0 <? length lines)%nat
    then [hosts.NewReaderByText (GoStrings.Join lines (String "010" ""))]
    else [] in
  forRange (hostsFileLoop env) (HostsFiles conf) readers.

(** The [handlerGroup] that the loop over [config.Groups] assembles for
    a group, once its IP set is there. *)
Definition handlerGroup (group : Group) (ipSet : option ipset.IPSet)
  : inbound.Group :=
  {| inbound.Callers := GenCallers group;
     inbound.Concurrent := Concurrent group;
     inbound.Matcher :=
       matcher.NewABPByText
         (GoStrings.Join (Rules group) (String "010" ""));
     inbound.IPSet := ipSet |}.

(** Body of the loop over [config.Groups]. *)
Definition groupLoop (env : Env) (groups : gmap string inbound.Group)
    (entry : string * Group) : M (gmap string inbound.Group) :=
  let '(name, group) := entry in
  (if Concurrent group
   then emit {| log.level := log.WarnLevel; log.fields := [];
                log.message := "enable dns concurrent in group " +:+ name |}
   else ret tt) ;;
  match GenIPSet env group with
  | Failure err =>
      emit {| log.level := log.ErrorLevel; log.fields := [];
              log.message := "create ipset error: " +:+ err |} ;;
      lift (Error err)
  | Success ipSet => ret (<[name := handlerGroup group ipSet]> groups)
  end.

(** The validity test of [NewHandler],
    [len(Groups) <= 0 || len(Groups["clean"].Callers) <= 0
     || len(Groups["dirty"].Callers) <= 0],
    evaluated from left to right.  A name absent from the map yields a nil
    [*inbound.Group], and reading [Callers] through it panics. *)
Definition invalidGroups (groups : gmap string inbound.Group) : result bool :=
  if (size groups <=? 0)%nat then Ok true
  else
    match groups !! "clean" with
    | None => Panic nilDereference
    | Some clean =>
        if (length (inbound.Callers clean) <=? 0)%nat then Ok true
        else
          match groups !! "dirty" with
          | None => Panic nilDereference
          | Some dirty => Ok (length (inbound.Callers dirty) <=? 0)%nat
          end
    end.

(** The error of an invalid pair of mandatory groups. *)
Definition emptyGroupError : error :=
  "dns of clean/dirty group cannot be empty".

(** [NewHandler]: reads the configuration of ts-dns from a TOML file and
    packs it into a handler.  [Ok h] is the return of a handler with a nil
    error, [Error err] the return of a nil handler with the error [err]. *)
Definition NewHandler (env : Env) (filename : string) : M inbound.Handler :=
  match DecodeFile env filename with
  | Failure err =>
      emit {| log.level := log.ErrorLevel;
              log.fields := [("file", filename)];
              log.message := "read config error: " +:+ err |} ;;
      lift (Error err)
  | Success config =>
      let config := SetDefault config in
      let listen := Listen config in
      match matcher.NewABPByFile (ReadFile env) (GFWList config) true with
      | Failure err =>
          emit {| log.level := log.ErrorLevel;
                  log.fields := [("file", GFWList config)];
                  log.message := "read gfwlist error: " +:+ err |} ;;
          lift (Error err)
      | Success gfwMatcher =>
          match cache.NewRamSetByFile (ReadFile env) (CNIP config) with
          | Failure err =>
              emit {| log.level := log.ErrorLevel;
                      log.fields := [("file", CNIP config)];
                      log.message := "read cnip error: " +:+ err |} ;;
              lift (Error err)
          | Success cnip =>
              do hostsReaders <- GenHostsReader env config;
              do cc <- lift (GenCache config);
              let '(config, dnsCache) := cc in
              do groups <- forRange (groupLoop env) (Groups config) ∅;
              do invalid <- lift (invalidGroups groups);
              if invalid then
                emit {| log.level := log.ErrorLevel; log.fields := [];
                        log.message := emptyGroupError |} ;;
                lift (Error emptyGroupError)
              else
                ret {| inbound.Listen := listen;
                       inbound.GFWMatcher := gfwMatcher;
                       inbound.CNIP := cnip;
                       inbound.HostsReaders := hostsReaders;
                       inbound.Cache := dnsCache;
                       inbound.Groups := groups |}
          end
      end
  end.

(** The environment in which every configuration file lists the hosts
    files [files], and which is otherwise [env]. *)
Definition withHostsFiles (files : list string) (env : Env) : Env :=
  {| DecodeFile := fun filename =>
       match DecodeFile env filename with
       | Success config => Success (setHostsFiles files config)
       | Failure err => Failure err
       end;
     ReadFile := ReadFile env;
     ipsetNew := ipsetNew env |}.

End conf.


(** ** Sample configurations *)

Module Examples.

Import conf.

(** The groups of [ts-dns-full.toml]. *)
Definition clean : Group :=
  {| Socks5 := ""; IPSet := ""; IPSetTTL := 0;
     DNS := ["119.29.29.29/tcp"; "223.5.5.5:53"; "114.114.114.114"];
     DoT := []; DoH := []; Concurrent := true;
     Rules := ["qq.com"; ".baidu.com"; "*.taobao.com"] |}.

Definition dirty : Group :=
  {| Socks5 := "127.0.0.1:1080"; IPSet := "blocked"; IPSetTTL := 86400;
     DNS := ["8.8.8.8"; "1.1.1.1"];
     DoT := ["1.0.0.1:853@cloudflare-dns.com"];
     DoH := ["https://cloudflare-dns.com/dns-query"];
     Concurrent := false; Rules := [] |}.

Definition work : Group :=
  {| Socks5 := ""; IPSet := ""; IPSetTTL := 0;
     DNS := ["10.1.1.1"]; DoT := []; DoH := []; Concurrent := false;
     Rules := ["company.com"] |}.

(** A group with no upstream server at all. *)
Definition idle : Group :=
  {| Socks5 := ""; IPSet := ""; IPSetTTL := 0;
     DNS := []; DoT := []; DoH := []; Concurrent := false;
     Rules := ["intranet.example"] |}.

(** [ts-dns-full.toml] with the [cache] section and the groups left
    open. *)
Definition config (cacheSection : option Cache)
    (groups : list (string * Group)) : Conf :=
  {| Listen := ":53"; GFWList := "gfwlist.txt"; CNIP := "cnip.txt";
     HostsFiles := ["/etc/hosts"];
     Hosts := [("example.com", "8.8.8.8"); ("cloudflare-dns.com", "1.0.0.1")];
     ConfCache := cacheSection;
     Groups := groups |}.

Definition cacheSection : Cache :=
  {| Size := 4096; MinTTL := 60; MaxTTL := 86400 |}.

(** The file as it is. *)
Definition full : Conf :=
  config (Some cacheSection)
    [("clean", clean); ("dirty", dirty); ("work", work)].

(** The file without its [groups.dirty] section. *)
Definition noDirty : Conf :=
  config (Some cacheSection) [("clean", clean); ("work", work)].

(** The file with a further group that has no upstream server. *)
Definition withIdle : Conf :=
  config (Some cacheSection)
    [("clean", clean); ("dirty", dirty); ("idle", idle)].

(** The file with [size = 0], and with [size = -1]. *)
Definition sizeZero : Conf :=
  config (Some {| Size := 0; MinTTL := 60; MaxTTL := 86400 |})
    [("clean", clean); ("dirty", dirty); ("work", work)].

Definition sizeNegative : Conf :=
  config (Some {| Size := -1; MinTTL := 60; MaxTTL := 86400 |})
    [("clean", clean); ("dirty", dirty); ("work", work)].

(** A file system with a deny-list and a CN-IP list and nothing else: the
    hosts file [/etc/hosts] cannot be read. *)
Definition files (filename : string) : fallible string :=
  if String.eqb filename "gfwlist.txt" then
    Success ("! deny-list" +:+ String "010" "blocked.example"
             +:+ String "010" "")
  else if String.eqb filename "cnip.txt" then
    Success ("1.0.1.0/24" +:+ String "010" "")
  else Failure ("open " +:+ filename +:+ ": no such file or directory").

(** A file system with nothing in it. *)
Definition noFiles (filename : string) : fallible string :=
  Failure ("open " +:+ filename +:+ ": no such file or directory").

(** A kernel that creates every IP set asked for. *)
Definition kernel (name hashType : string) (params : ipset.Params)
  : fallible ipset.IPSet :=
  Success {| ipset.Name := name; ipset.HashType := hashType;
             ipset.SetParams := params |}.

(** The environment in which [ts-dns.toml] decodes to [c]. *)
Definition env (c : Conf) : Env :=
  {| DecodeFile := fun filename =>
       if String.eqb filename "ts-dns.toml" then Success c
       else Failure ("open " +:+ filename +:+ ": no such file or directory");
     ReadFile := files;
     ipsetNew := kernel |}.

(** The same with the deny-list and the CN-IP list missing. *)
Definition envNoFiles (c : Conf) : Env :=
  {| DecodeFile := DecodeFile (env c);
     ReadFile := noFiles;
     ipsetNew := kernel |}.

(** A query and an answer to it. *)
Definition query : cache.QueryKey :=
  {| cache.qname := "example.com"; cache.qtype := 1; cache.qclass := 1 |}.

Definition answer : cache.Response :=
  {| cache.answerTTLs := [300]; cache.wire := "" |}.

End Examples.

(** ** The log lines of package [conf] *)

Module Entries.

(** [log.WithField("file", filename).Errorf("read config error: %v", err)] *)
Definition readConfig (filename : string) (err : error) : log.Entry :=
  {| log.level := log.ErrorLevel;
     log.fields := [("file", filename)];
     log.message := "read config error: " +:+ err |}.

(** [log.WithField("file", config.GFWList).Errorf("read gfwlist error: %v",
    err)] *)
Definition readGFWList (filename : string) (err : error) : log.Entry :=
  {| log.level := log.ErrorLevel;
     log.fields := [("file", filename)];
     log.message := "read gfwlist error: " +:+ err |}.

(** [log.WithField("file", config.CNIP).Errorf("read cnip error: %v", err)] *)
Definition readCNIP (filename : string) (err : error) : log.Entry :=
  {| log.level := log.ErrorLevel;
     log.fields := [("file", filename)];
     log.message := "read cnip error: " +:+ err |}.

(** [log.WithField("file", filename).Warnf("read hosts error: %v", err)] *)
Definition readHosts (filename : string) (err : error) : log.Entry :=
  {| log.level := log.WarnLevel;
     log.fields := [("file", filename)];
     log.message := "read hosts error: " +:+ err |}.

(** [log.Warnln("enable dns concurrent in group " + name)] *)
Definition concurrent (name : string) : log.Entry :=
  {| log.level := log.WarnLevel; log.fields := [];
     log.message := "enable dns concurrent in group " +:+ name |}.

(** [log.Errorf("create ipset error: %v", err)] *)
Definition createIPSet (err : error) : log.Entry :=
  {| log.level := log.ErrorLevel; log.fields := [];
     log.message := "create ipset error: " +:+ err |}.

(** [log.Errorf("dns of clean/dirty group cannot be empty")] *)
Definition emptyGroup : log.Entry :=
  {| log.level := log.ErrorLevel; log.fields := [];
     log.message := conf.emptyGroupError |}.

(** The lines [GenHostsReader] writes for a list of hosts files: one for
    each file that cannot be read, in order. *)
Definition unreadableHosts (env : conf.Env) (files : list string)
  : list log.Entry :=
  omap (λ f, match conf.ReadFile env f with
             | Success _ => None
             | Failure err => Some (readHosts f err)
             end) files.

(** The lines the loop over the groups writes for the groups it gets
    through: one for each group with [concurrent] set, in order. *)
Definition concurrentGroups (groups : list (string * conf.Group))
  : list log.Entry :=
  flat_map (λ '(name, g), if conf.Concurrent g then [concurrent name] else [])
    groups.

End Entries.

(** ** Further sample configurations *)

Module Cases.

Import conf.

(** [ts-dns-full.toml] without its [cache] section. *)
Definition noCache : Conf :=
  Examples.config None
    [("clean", Examples.clean); ("dirty", Examples.dirty)].

(** [ts-dns-full.toml] without any group. *)
Definition noGroups : Conf := Examples.config (Some Examples.cacheSection) [].

(** [ts-dns-full.toml] with only its [groups.dirty] section. *)
Definition noClean : Conf :=
  Examples.config (Some Examples.cacheSection) [("dirty", Examples.dirty)].

(** [ts-dns-full.toml] with a [dirty] group that has no upstream server. *)
Definition dirtyIdle : Conf :=
  Examples.config (Some Examples.cacheSection)
    [("clean", Examples.clean); ("dirty", Examples.idle)].

(** A file that leaves [listen], [gfwlist] and [cnip] out. *)
Definition bare : Conf :=
  {| Listen := ""; GFWList := ""; CNIP := ""; HostsFiles := []; Hosts := [];
     ConfCache := Some Examples.cacheSection;
     Groups := [("clean", Examples.clean); ("dirty", Examples.work)] |}.

(** A kernel that refuses to create IP sets. *)
Definition noKernel (name hashType : string) (params : ipset.Params)
  : fallible ipset.IPSet :=
  Failure "operation not permitted".

Definition envNoKernel (c : Conf) : Env :=
  {| DecodeFile := DecodeFile (Examples.env c);
     ReadFile := Examples.files;
     ipsetNew := noKernel |}.

(** A file system with the deny-list only. *)
Definition gfwlistOnly (filename : string) : fallible string :=
  if String.eqb filename "gfwlist.txt" then Examples.files filename
  else Examples.noFiles filename.

Definition envNoCNIP (c : Conf) : Env :=
  {| DecodeFile := DecodeFile (Examples.env c);
     ReadFile := gfwlistOnly;
     ipsetNew := Examples.kernel |}.

End Cases.

(** * Properties *)

(** ** Byte strings *)

Section StringFacts.

Implicit Types s p q : string.

Lemma append_cons c s p : String c s +:+ p = String c (s +:+ p).
Proof. reflexivity. Qed.

Lemma append_nil_l p : "" +:+ p = p.
Proof. reflexivity. Qed.

Lemma append_nil_r s : s +:+ "" = s.
Proof.
  induction s as [|c s IH]; [reflexivity|].
  now rewrite append_cons, IH.
Qed.

Lemma append_assoc s p q : (s +:+ p) +:+ q = s +:+ (p +:+ q).
Proof.
  induction s as [|c s IH]; [reflexivity|].
  now rewrite !append_cons, IH.
Qed.

Lemma append_length s p :
  String.length (s +:+ p) = (String.length s + String.length p)%nat.
Proof.
  induction s as [|c s IH]; [reflexivity|].
  rewrite append_cons. simpl. now rewrite IH.
Qed.

Lemma append_eq_nil s p : s +:+ p = "" → s = "" ∧ p = "".
Proof.
  destruct s; [rewrite append_nil_l; auto | rewrite append_cons; discriminate].
Qed.

Lemma append_eq_cons s p c q :
  s +:+ p = String c q →
  (s = "" ∧ p = String c q) ∨ (∃ s', s = String c s' ∧ q = s' +:+ p).
Proof.
  destruct s as [|d s]; intros H.
  - left; auto.
  - right. rewrite append_cons in H. injection H as -> <-. eauto.
Qed.

Lemma append_inv_l s p q : s +:+ p = s +:+ q → p = q.
Proof.
  induction s as [|c s IH]; intros H; [exact H|].
  rewrite !append_cons in H. injection H. auto.
Qed.

Lemma substring_all s : String.substring 0 (String.length s) s = s.
Proof. induction s as [|c s IH]; simpl; [reflexivity | now rewrite IH]. Qed.

Lemma substring_app_l s p :
  String.substring 0 (String.length s) (s +:+ p) = s.
Proof.
  induction s as [|c s IH].
  - rewrite append_nil_l. destruct p; reflexivity.
  - rewrite append_cons. simpl. now rewrite IH.
Qed.

Lemma substring_app_r s p n :
  String.substring (String.length s) n (s +:+ p) = String.substring 0 n p.
Proof.
  induction s as [|c s IH]; [reflexivity|].
  rewrite append_cons. simpl. exact IH.
Qed.

Lemma substring_split s n :
  (n ≤ String.length s)%nat →
  s = String.substring 0 n s
      +:+ String.substring n (String.length s - n) s.
Proof.
  revert n. induction s as [|c s IH]; intros [|n] Hn; simpl in *.
  - reflexivity.
  - lia.
  - rewrite append_nil_l. now rewrite substring_all.
  - rewrite append_cons. rewrite <- IH by lia. reflexivity.
Qed.

Lemma prefix_app p s : String.prefix p (p +:+ s) = true.
Proof.
  induction p as [|c p IH].
  - rewrite append_nil_l. destruct s; reflexivity.
  - rewrite append_cons. simpl.
    destruct (ascii_dec c c); [assumption | congruence].
Qed.

Lemma prefix_inv p s : String.prefix p s = true → ∃ q, s = p +:+ q.
Proof.
  revert s. induction p as [|c p IH]; intros s H.
  - exists s. reflexivity.
  - destruct s as [|d s]; simpl in H; [discriminate|].
    destruct (ascii_dec c d) as [->|]; [|discriminate].
    destruct (IH _ H) as [q ->]. exists q. reflexivity.
Qed.

(** [HasSuffix] holds exactly of the strings that end with the suffix. *)
Lemma HasSuffix_spec s suf :
  GoStrings.HasSuffix s suf = true ↔ ∃ p, s = p +:+ suf.
Proof.
  unfold GoStrings.HasSuffix, GoStrings.slice. split.
  - intros H. apply andb_true_iff in H as [Hlen Heq].
    apply Nat.leb_le in Hlen. apply String.eqb_eq in Heq.
    exists (String.substring 0 (String.length s - String.length suf) s).
    pose proof (substring_split s (String.length s - String.length suf))
      as Hs.
    rewrite Heq in Hs. apply Hs. lia.
  - intros [p ->]. rewrite append_length. apply andb_true_iff. split.
    + apply Nat.leb_le. lia.
    + apply String.eqb_eq.
      replace (String.length p + String.length suf - String.length suf)%nat
        with (String.length p) by lia.
      replace (String.length p + String.length suf - String.length p)%nat
        with (String.length suf) by lia.
      rewrite substring_app_r. apply substring_all.
Qed.

(** Cutting a suffix off gives back what precedes it. *)
Lemma slice_suffix p suf :
  GoStrings.slice (p +:+ suf) 0
    (String.length (p +:+ suf) - String.length suf) = p.
Proof.
  unfold GoStrings.slice. rewrite append_length.
  replace (String.length p + String.length suf - String.length suf - 0)%nat
    with (String.length p) by lia.
  apply substring_app_l.
Qed.

(** Occurrences of a one-byte string. *)
Lemma Contains_byte_cons c d s :
  GoStrings.Contains (String d s) (String c "")
  = Ascii.eqb c d || GoStrings.Contains s (String c "").
Proof.
  simpl. destruct (ascii_dec c d) as [->|Hne].
  - rewrite Ascii.eqb_refl. destruct s; reflexivity.
  - apply Ascii.eqb_neq in Hne. rewrite Hne. reflexivity.
Qed.

Lemma Contains_byte_app c s p :
  GoStrings.Contains (s +:+ p) (String c "")
  = GoStrings.Contains s (String c "") || GoStrings.Contains p (String c "").
Proof.
  induction s as [|d s IH].
  - reflexivity.
  - rewrite append_cons, !Contains_byte_cons, IH. now rewrite orb_assoc.
Qed.

End StringFacts.

(** ** [strings.Split] on a one-byte separator *)

Section SplitFacts.

Variable c : ascii.
Lemma Split_go_nonempty cur s : GoStrings.Split_go (String c "") 0 cur s ≠ [].
Proof.
  revert cur. induction s as [|d s IH]; intros cur; simpl; [discriminate|].
  destruct (ascii_dec c d); [|apply IH].
  destruct (String.prefix "" s); [discriminate | apply IH].
Qed.

(** Without an occurrence of the separator there is one piece. *)
Lemma Split_go_none cur s :
  GoStrings.Contains s (String c "") = false →
  GoStrings.Split_go (String c "") 0 cur s = [cur +:+ s].
Proof.
  revert cur. induction s as [|d s IH]; intros cur H.
  - simpl. now rewrite append_nil_r.
  - rewrite Contains_byte_cons in H.
    apply orb_false_iff in H as [Hcd Hs].
    apply Ascii.eqb_neq in Hcd. simpl.
    destruct (ascii_dec c d); [contradiction|].
    rewrite IH by exact Hs. now rewrite append_assoc.
Qed.

(** The first occurrence of the separator ends the first piece. *)
Lemma Split_go_cut cur a rest :
  GoStrings.Contains a (String c "") = false →
  GoStrings.Split_go (String c "") 0 cur (a +:+ String c rest)
  = (cur +:+ a) :: GoStrings.Split_go (String c "") 0 "" rest.
Proof.
  revert cur. induction a as [|d a IH]; intros cur H.
  - rewrite append_nil_l, append_nil_r. simpl.
    destruct (ascii_dec c c); [|congruence].
    destruct rest; reflexivity.
  - rewrite Contains_byte_cons in H.
    apply orb_false_iff in H as [Hcd Ha].
    apply Ascii.eqb_neq in Hcd. rewrite append_cons. simpl.
    destruct (ascii_dec c d); [contradiction|].
    rewrite IH by exact Ha. now rewrite append_assoc.
Qed.

Lemma first_occurrence s :
  GoStrings.Contains s (String c "") = false
  ∨ ∃ a rest, s = a +:+ String c rest ∧ GoStrings.Contains a (String c "") = false.
Proof.
  induction s as [|d s IH].
  - left. reflexivity.
  - destruct (ascii_dec c d) as [<-|Hne].
    + right. exists "", s. split; reflexivity.
    + destruct IH as [IH|(a & rest & -> & Ha)].
      * left. rewrite Contains_byte_cons.
        apply Ascii.eqb_neq in Hne. now rewrite Hne.
      * right. exists (String d a), rest. split; [reflexivity|].
        rewrite Contains_byte_cons.
        apply Ascii.eqb_neq in Hne. now rewrite Hne.
Qed.

(** [Split] yields exactly two pieces for the strings with exactly one
    occurrence of the separator, and the pieces are what stands before
    and after it. *)
Lemma Split_two s a b :
  GoStrings.Split s (String c "") = [a; b]
  ↔ s = a +:+ (String c "") +:+ b
    ∧ GoStrings.Contains a (String c "") = false
    ∧ GoStrings.Contains b (String c "") = false.
Proof.
  unfold GoStrings.Split. split.
  - intros H. destruct (first_occurrence s) as [Hs|(a' & rest & -> & Ha')].
    + rewrite Split_go_none in H by exact Hs. discriminate.
    + rewrite Split_go_cut in H by exact Ha'. rewrite append_nil_l in H.
      injection H as -> H.
      destruct (first_occurrence rest) as [Hr|(a2 & r2 & -> & Ha2)].
      * rewrite Split_go_none in H by exact Hr. rewrite append_nil_l in H.
        injection H as ->. auto.
      * rewrite Split_go_cut in H by exact Ha2. injection H as _ H.
        now apply Split_go_nonempty in H.
  - intros (-> & Ha & Hb). rewrite append_cons, append_nil_l.
    rewrite Split_go_cut by exact Ha.
    rewrite Split_go_none by exact Hb. reflexivity.
Qed.

(** With an occurrence of the separator there are at least two pieces. *)
Lemma Split_go_some cur s :
  GoStrings.Contains s (String c "") = true →
  (2 ≤ length (GoStrings.Split_go (String c "") 0 cur s))%nat.
Proof.
  intros H. destruct (first_occurrence s) as [Hs|(a & rest & -> & Ha)].
  - congruence.
  - rewrite Split_go_cut by exact Ha. simpl.
    pose proof (Split_go_nonempty "" rest) as Hne.
    destruct (GoStrings.Split_go (String c "") 0 "" rest); [congruence | simpl; lia].
Qed.

(** A separator at the very end leaves an empty last piece. *)
Lemma Split_trailing a :
  GoStrings.Contains a (String c "") = false →
  GoStrings.Split (a +:+ String c "") (String c "") = [a; ""].
Proof.
  intros Ha. unfold GoStrings.Split.
  rewrite Split_go_cut by exact Ha. reflexivity.
Qed.

End SplitFacts.

(** ** The regular-expression matcher *)

Section RegexpFacts.

Import regexp.

Lemma nullable_Matches r : nullable r = true → Matches r "".
Proof.
  induction r; simpl; intros H; try discriminate.
  - constructor.
  - apply andb_true_iff in H as [H1 H2].
    change "" with ("" +:+ ""). constructor; auto.
  - apply orb_true_iff in H as [H|H]; [apply MAltL | apply MAltR]; auto.
  - constructor.
Qed.

Lemma Matches_nullable r s : Matches r s → s = "" → nullable r = true.
Proof.
  induction 1; intros E; simpl; auto; try discriminate.
  - apply append_eq_nil in E as [-> ->]. now rewrite IHMatches1, IHMatches2.
  - now rewrite IHMatches.
  - rewrite IHMatches by assumption. apply orb_true_r.
Qed.

Lemma deriv_sound c r s : Matches (deriv c r) s → Matches r (String c s).
Proof.
  revert s. induction r as [| |p|r1 IH1 r2 IH2|r1 IH1 r2 IH2|r IH];
    intros s H; simpl in H.
  - inversion H.
  - inversion H.
  - destruct (p c) eqn:Hp; inversion H; subst. now constructor.
  - destruct (nullable r1) eqn:Hn.
    + inversion H as [| | | ? ? ? H' | ? ? ? H' | |]; subst.
      * inversion H' as [| |? ? s1 s2 Ha Hb| | | |]; subst.
        rewrite <- append_cons. constructor; auto.
      * rewrite <- (append_nil_l (String c s)).
        constructor; [now apply nullable_Matches | auto].
    + inversion H as [| |? ? s1 s2 Ha Hb| | | |]; subst.
      rewrite <- append_cons. constructor; auto.
  - inversion H; subst; [apply MAltL | apply MAltR]; auto.
  - inversion H as [| |? ? s1 s2 Ha Hb| | | |]; subst.
    rewrite <- append_cons. constructor; auto.
Qed.

Lemma deriv_complete r t :
  Matches r t → ∀ c s, t = String c s → Matches (deriv c r) s.
Proof.
  induction 1 as [|p d Hp|r1 r2 s1 s2 H1 IH1 H2 IH2|r1 r2 s0 H0 IH0
                  |r1 r2 s0 H0 IH0|r|r s1 s2 H1 IH1 H2 IH2];
    intros c s E; simpl.
  - discriminate.
  - injection E as -> <-. rewrite Hp. constructor.
  - apply append_eq_cons in E as [[-> ->]|(s1' & -> & ->)].
    + rewrite (Matches_nullable _ _ H1 eq_refl). apply MAltR. now apply IH2.
    + destruct (nullable r1).
      * apply MAltL. constructor; auto.
      * constructor; auto.
  - apply MAltL. auto.
  - apply MAltR. auto.
  - discriminate.
  - apply append_eq_cons in E as [[-> ->]|(s1' & -> & ->)].
    + now apply IH2.
    + constructor; auto.
Qed.

(** The derivative matcher decides the denotation. *)
Lemma MatchString_Matches r s : MatchString r s = true ↔ Matches r s.
Proof.
  revert r. induction s as [|c s IH]; intros r; simpl.
  - split; [apply nullable_Matches | intros H; now apply Matches_nullable with ""].
  - rewrite IH. split; [apply deriv_sound|].
    intros H. now apply deriv_complete with (String c s).
Qed.

Lemma Matches_Class_inv p s :
  Matches (Class p) s → ∃ c, s = String c "" ∧ p c = true.
Proof. inversion 1; subst; eauto. Qed.

Lemma Matches_Literal l s : Matches (Literal l) s ↔ s = l.
Proof.
  revert s. induction l as [|c l IH]; intros s; simpl; split.
  - inversion 1; reflexivity.
  - intros ->. constructor.
  - inversion 1 as [| |? ? s1 s2 Ha Hb| | | |]; subst.
    apply Matches_Class_inv in Ha as (d & -> & Hd).
    apply Ascii.eqb_eq in Hd as <-. apply IH in Hb as ->. reflexivity.
  - intros ->. change (String c l) with (String c "" +:+ l).
    constructor; [constructor; apply Ascii.eqb_refl | now apply IH].
Qed.

Lemma Matches_Star_AnyCharNotNL s :
  Matches (Star AnyCharNotNL) s
  ↔ GoStrings.Contains s (String "010" "") = false.
Proof.
  split.
  - remember (Star AnyCharNotNL) as r eqn:Er. intros H.
    induction H as [| | | | | |r s1 s2 H1 _ H2 IH2]; try discriminate.
    + reflexivity.
    + injection Er as ->. apply Matches_Class_inv in H1 as (d & -> & Hd).
      rewrite Contains_byte_app, IH2 by reflexivity.
      rewrite Contains_byte_cons. apply negb_true_iff in Hd.
      rewrite Ascii.eqb_sym, Hd. reflexivity.
  - induction s as [|d s IH]; intros H; [constructor|].
    rewrite Contains_byte_cons in H. apply orb_false_iff in H as [Hd Hs].
    change (String d s) with (String d "" +:+ s).
    constructor; [|auto]. constructor.
    apply negb_true_iff. now rewrite Ascii.eqb_sym.
Qed.

Lemma Matches_Plus_AnyCharNotNL s :
  Matches (Plus AnyCharNotNL) s
  ↔ s ≠ "" ∧ GoStrings.Contains s (String "010" "") = false.
Proof.
  unfold Plus. split.
  - inversion 1 as [| |? ? s1 s2 Ha Hb| | | |]; subst.
    pose proof Ha as Ha'. apply Matches_Class_inv in Ha' as (d & -> & Hd).
    split; [discriminate|].
    apply Matches_Star_AnyCharNotNL.
    apply MStarCons; assumption.
  - intros [Hne H]. destruct s as [|d s]; [congruence|].
    rewrite Contains_byte_cons in H. apply orb_false_iff in H as [Hd Hs].
    change (String d s) with (String d "" +:+ s).
    constructor; [|now apply Matches_Star_AnyCharNotNL].
    constructor. apply negb_true_iff. now rewrite Ascii.eqb_sym.
Qed.

(** What [dohReg] accepts: [https://], then at least one byte and no
    line feed, then [/dns-query], and nothing else. *)
Lemma dohReg_spec s :
  MatchString conf.dohReg s = true
  ↔ ∃ mid, s = "https://" +:+ mid +:+ "/dns-query"
           ∧ mid ≠ "" ∧ GoStrings.Contains mid (String "010" "") = false.
Proof.
  rewrite MatchString_Matches. unfold conf.dohReg. split.
  - inversion 1 as [| |? ? s1 s2 Ha Hb| | | |]; subst.
    inversion Hb as [| |? ? s3 s4 Hc Hd| | | |]; subst.
    apply (Matches_Literal "https://") in Ha as ->.
    apply (Matches_Literal "/dns-query") in Hd as ->.
    apply Matches_Plus_AnyCharNotNL in Hc as [Hne Hnl].
    exists s3. auto.
  - intros (mid & -> & Hne & Hnl).
    constructor; [now apply Matches_Literal|].
    constructor; [now apply Matches_Plus_AnyCharNotNL | now apply Matches_Literal].
Qed.

End RegexpFacts.

(** ** [GenCallers] *)

Section GenCallersFacts.

Import conf.

Variable dialer : option proxy.Dialer.

Lemma dnsLoop_app callers addr :
  dnsLoop dialer callers addr = callers ++ dnsLoop dialer [] addr.
Proof.
  unfold dnsLoop. destruct (GoStrings.HasSuffix addr "/tcp");
    match goal with |- context [negb (String.eqb ?a "")] =>
      destruct (negb (String.eqb a "")) end;
    now rewrite ?app_nil_r.
Qed.

Lemma dotLoop_app callers addr :
  dotLoop dialer callers addr = callers ++ dotLoop dialer [] addr.
Proof.
  unfold dotLoop.
  destruct (GoStrings.Split addr "@") as [|a [|sn [|? ?]]];
    rewrite ?app_nil_r; try reflexivity.
  destruct (negb (String.eqb a "") && negb (String.eqb sn ""));
    now rewrite ?app_nil_r.
Qed.

Lemma dohLoop_app callers addr :
  dohLoop dialer callers addr = callers ++ dohLoop dialer [] addr.
Proof.
  unfold dohLoop. destruct (regexp.MatchString dohReg addr);
    now rewrite ?app_nil_r.
Qed.

(** A loop that only appends collects what each element contributes. *)
Lemma fold_left_appending {A B : Type} (f : list B → A → list B)
    (l : list A) (acc : list B) :
  (∀ acc x, f acc x = acc ++ f [] x) →
  fold_left f l acc = acc ++ flat_map (f []) l.
Proof.
  intros Hf. revert acc. induction l as [|x l IH]; intros acc; simpl.
  - now rewrite app_nil_r.
  - rewrite IH, (Hf acc x). now rewrite <- app_assoc.
Qed.

Lemma dnsLoop_transport addr c :
  In c (dnsLoop dialer [] addr) → outbound.transport c = outbound.PlainDNS.
Proof.
  unfold dnsLoop. destruct (GoStrings.HasSuffix addr "/tcp");
    match goal with |- context [negb (String.eqb ?a "")] =>
      destruct (negb (String.eqb a "")) end;
    simpl; try tauto; intros [<-|[]]; reflexivity.
Qed.

Lemma dotLoop_transport addr c :
  In c (dotLoop dialer [] addr) → outbound.transport c = outbound.DNSOverTLS.
Proof.
  unfold dotLoop.
  destruct (GoStrings.Split addr "@") as [|a [|sn [|? ?]]];
    try (intros []).
  destruct (negb (String.eqb a "") && negb (String.eqb sn ""));
    simpl; try tauto; intros [<-|[]]; reflexivity.
Qed.

Lemma dohLoop_transport addr c :
  In c (dohLoop dialer [] addr) → outbound.transport c = outbound.DNSOverHTTPS.
Proof.
  unfold dohLoop. destruct (regexp.MatchString dohReg addr);
    simpl; try tauto; intros [<-|[]]; reflexivity.
Qed.

Lemma filter_all {A : Type} (p : A → bool) (l : list A) :
  (∀ x, In x l → p x = true) → List.filter p l = l.
Proof.
  induction l as [|x l IH]; simpl; intros H; [reflexivity|].
  rewrite (H x) by auto. f_equal. apply IH. auto.
Qed.

Lemma filter_none {A : Type} (p : A → bool) (l : list A) :
  (∀ x, In x l → p x = false) → List.filter p l = [].
Proof.
  induction l as [|x l IH]; simpl; intros H; [reflexivity|].
  rewrite (H x) by auto. apply IH. auto.
Qed.

Lemma flat_map_transport {A : Type} (f : A → list outbound.Caller) t l c :
  (∀ x c, In c (f x) → outbound.transport c = t) →
  In c (flat_map f l) → outbound.transport c = t.
Proof.
  intros Hf H. apply in_flat_map in H as (x & _ & Hx). eauto.
Qed.

End GenCallersFacts.

Section GenCallersParts.

Import conf.

(** The callers of a group are those of its plain-DNS list, then those of
    its DoT list, then those of its DoH list. *)
Lemma GenCallers_parts (g : Group) :
  GenCallers g
  = flat_map (dnsLoop (GenDialer g) []) (DNS g)
    ++ flat_map (dotLoop (GenDialer g) []) (DoT g)
    ++ flat_map (dohLoop (GenDialer g) []) (DoH g).
Proof.
  unfold GenCallers.
  rewrite (fold_left_appending (dnsLoop _)) by apply dnsLoop_app.
  rewrite (fold_left_appending (dotLoop _)) by apply dotLoop_app.
  rewrite (fold_left_appending (dohLoop _)) by apply dohLoop_app.
  simpl. now rewrite <- app_assoc.
Qed.

Ltac by_transport :=
  intros ? Hin;
  first [ apply (flat_map_transport _ _ _ _ (dnsLoop_transport _)) in Hin
        | apply (flat_map_transport _ _ _ _ (dotLoop_transport _)) in Hin
        | apply (flat_map_transport _ _ _ _ (dohLoop_transport _)) in Hin ];
  unfold outbound.isPlainDNS, outbound.isDoT, outbound.isDoH;
  now rewrite Hin.

Lemma GenCallers_plain (g : Group) :
  List.filter outbound.isPlainDNS (GenCallers g)
  = flat_map (dnsLoop (GenDialer g) []) (DNS g).
Proof.
  rewrite GenCallers_parts, !List.filter_app.
  rewrite filter_all by by_transport.
  rewrite !filter_none by by_transport.
  now rewrite !app_nil_r.
Qed.

Lemma GenCallers_tls (g : Group) :
  List.filter outbound.isDoT (GenCallers g)
  = flat_map (dotLoop (GenDialer g) []) (DoT g).
Proof.
  rewrite GenCallers_parts, !List.filter_app.
  rewrite (filter_all _ (flat_map (dotLoop _ _) _)) by by_transport.
  rewrite !filter_none by by_transport.
  now rewrite !app_nil_r.
Qed.

Lemma GenCallers_https (g : Group) :
  List.filter outbound.isDoH (GenCallers g)
  = flat_map (dohLoop (GenDialer g) []) (DoH g).
Proof.
  rewrite GenCallers_parts, !List.filter_app.
  rewrite (filter_all _ (flat_map (dohLoop _ _) _)) by by_transport.
  rewrite !filter_none by by_transport.
  reflexivity.
Qed.

End GenCallersParts.

(** ** The callers generated from each address list *)

(** C4: every plain-DNS caller of a group comes from an address of its
    DNS list, in order.  An address ending with [/tcp] gives a caller that
    uses TCP and dials the address without that suffix; any other address
    gives a caller that uses UDP and dials the address itself; in both
    cases [:53] is appended to the dialed address when the configured
    address contains no [:].  (An address with nothing to dial gives no
    caller.) *)
Theorem GenCallers_plain_DNS_transport (g : conf.Group) :
  let d := conf.GenDialer g in
  List.filter outbound.isPlainDNS (conf.GenCallers g)
  = flat_map (conf.dnsLoop d []) (conf.DNS g)
  ∧ (∀ p,
       conf.dnsLoop d [] (p +:+ "/tcp")
       = if String.eqb p "" then []
         else [outbound.DNSCaller
                 (if GoStrings.Contains (p +:+ "/tcp") ":" then p
                  else p +:+ ":53")
                 "tcp" d])
  ∧ (∀ addr,
       ¬ (∃ p, addr = p +:+ "/tcp") →
       conf.dnsLoop d [] addr
       = if String.eqb addr "" then []
         else [outbound.DNSCaller
                 (if GoStrings.Contains addr ":" then addr
                  else addr +:+ ":53")
                 "udp" d]).
Proof.
  intros d. split; [apply GenCallers_plain|]. split.
  - intros p. unfold conf.dnsLoop.
    assert (Hs : GoStrings.HasSuffix (p +:+ "/tcp") "/tcp" = true)
      by (apply HasSuffix_spec; eauto).
    rewrite Hs.
    change 4%nat with (String.length "/tcp"). rewrite slice_suffix.
    rewrite Contains_byte_app.
    change (GoStrings.Contains "/tcp" ":") with false. rewrite orb_false_r.
    destruct (String.eqb p ""); simpl; [reflexivity|].
    destruct (GoStrings.Contains p ":"); reflexivity.
  - intros addr Hno. unfold conf.dnsLoop.
    destruct (GoStrings.HasSuffix addr "/tcp") eqn:Hs.
    + apply HasSuffix_spec in Hs. contradiction.
    + destruct (String.eqb addr ""); simpl; [reflexivity|].
      destruct (GoStrings.Contains addr ":"); reflexivity.
Qed.

Lemma GenCallers_plain_DNS_transport_witness :
  conf.dnsLoop (conf.GenDialer Examples.clean) [] "114.114.114.114"
  = [outbound.DNSCaller "114.114.114.114:53" "udp" None].
Proof.
  destruct (GenCallers_plain_DNS_transport Examples.clean) as (_ & _ & H).
  apply (H "114.114.114.114").
  intros Hp. apply HasSuffix_spec in Hp. vm_compute in Hp. discriminate Hp.
Defined.

(** C5: every DoT caller of a group comes from an entry of its DoT list,
    in order.  An entry gives a caller exactly when splitting it on [@]
    gives exactly two parts, an upstream address and a server name, both
    non-empty; the caller dials the upstream address, with [:853]
    appended when it contains no [:], and verifies the server name.  An
    entry gives at most one caller; an entry with no [@], or with nothing
    after its [@], gives none. *)
Theorem GenCallers_DoT_entries (g : conf.Group) :
  let d := conf.GenDialer g in
  List.filter outbound.isDoT (conf.GenCallers g)
  = flat_map (conf.dotLoop d []) (conf.DoT g)
  ∧ (∀ entry c,
       In c (conf.dotLoop d [] entry)
       ↔ ∃ addr serverName,
           GoStrings.Split entry "@" = [addr; serverName]
           ∧ addr ≠ "" ∧ serverName ≠ ""
           ∧ c = outbound.DoTCaller
                   (if GoStrings.Contains addr ":" then addr
                    else addr +:+ ":853")
                   serverName d)
  ∧ (∀ entry, (length (conf.dotLoop d [] entry) ≤ 1)%nat)
  ∧ (∀ entry,
       GoStrings.Contains entry "@" = false → conf.dotLoop d [] entry = [])
  ∧ (∀ addr, conf.dotLoop d [] (addr +:+ "@") = []).
Proof.
  intros d. split; [apply GenCallers_tls|].
  assert (Hiff : ∀ entry c,
       In c (conf.dotLoop d [] entry)
       ↔ ∃ addr serverName,
           GoStrings.Split entry "@" = [addr; serverName]
           ∧ addr ≠ "" ∧ serverName ≠ ""
           ∧ c = outbound.DoTCaller
                   (if GoStrings.Contains addr ":" then addr
                    else addr +:+ ":853")
                   serverName d).
  { intros entry c. unfold conf.dotLoop.
    destruct (GoStrings.Split entry "@") as [|a [|sn [|? ?]]]; simpl;
      try (split; [tauto | intros (? & ? & ? & _); discriminate]).
    destruct (String.eqb a "") eqn:Ea; simpl.
    { apply String.eqb_eq in Ea as ->.
      split; [tauto | intros (? & ? & [= <- <-] & ? & _); congruence]. }
    destruct (String.eqb sn "") eqn:Es; simpl.
    { apply String.eqb_eq in Es as ->.
      split; [tauto | intros (? & ? & [= <- <-] & ? & ? & _); congruence]. }
    apply String.eqb_neq in Ea, Es. split.
    - intros [<-|[]]. exists a, sn. repeat split; auto.
      destruct (GoStrings.Contains a ":"); reflexivity.
    - intros (? & ? & [= <- <-] & _ & _ & ->). left.
      destruct (GoStrings.Contains a ":"); reflexivity. }
  split; [exact Hiff|]. split; [|split].
  - intros entry. unfold conf.dotLoop.
    destruct (GoStrings.Split entry "@") as [|a [|sn [|? ?]]]; simpl; try lia.
    destruct (negb (String.eqb a "") && negb (String.eqb sn "")); simpl; lia.
  - intros entry Hno. unfold conf.dotLoop, GoStrings.Split.
    now rewrite (Split_go_none "@"%char) by exact Hno.
  - intros addr. unfold conf.dotLoop.
    destruct (first_occurrence "@"%char addr) as [Hno|(a & rest & -> & Ha)].
    + rewrite (Split_trailing "@"%char) by exact Hno.
      now rewrite andb_false_r.
    + rewrite append_assoc, append_cons. unfold GoStrings.Split.
      rewrite (Split_go_cut "@"%char) by exact Ha.
      assert (Hc : GoStrings.Contains (rest +:+ "@") "@" = true).
      { rewrite Contains_byte_app. apply orb_true_r. }
      apply (Split_go_some "@"%char "") in Hc.
      destruct (GoStrings.Split_go "@" 0 "" (rest +:+ "@")) as [|x [|y l]];
        simpl in Hc; try lia; reflexivity.
Qed.

Lemma GenCallers_DoT_entries_witness :
  conf.dotLoop (conf.GenDialer Examples.dirty) [] "1.0.0.1:853" = [].
Proof.
  destruct (GenCallers_DoT_entries Examples.dirty) as (_ & _ & _ & H & _).
  apply (H "1.0.0.1:853"). vm_compute. reflexivity.
Defined.

(** C6: every DoH caller of a group comes from an entry of its DoH list,
    in order.  An entry gives a caller, for the entry itself as URL, if
    and only if it matches [^https://.+/dns-query$], that is, if it is
    [https://], then at least one byte and no line feed, then
    [/dns-query]; any other entry gives nothing. *)
Theorem GenCallers_DoH_pattern (g : conf.Group) :
  let d := conf.GenDialer g in
  List.filter outbound.isDoH (conf.GenCallers g)
  = flat_map (conf.dohLoop d []) (conf.DoH g)
  ∧ (∀ url,
       In (outbound.DoHCaller url d) (conf.GenCallers g)
       ↔ In url (conf.DoH g) ∧ regexp.MatchString conf.dohReg url = true)
  ∧ (∀ entry,
       conf.dohLoop d [] entry
       = if regexp.MatchString conf.dohReg entry
         then [outbound.DoHCaller entry d] else [])
  ∧ (∀ entry,
       regexp.MatchString conf.dohReg entry = true
       ↔ ∃ mid, entry = "https://" +:+ mid +:+ "/dns-query"
                ∧ mid ≠ ""
                ∧ GoStrings.Contains mid (String "010" "") = false).
Proof.
  intros d. split; [apply GenCallers_https|]. split; [|split].
  - intros url. split.
    + intros H.
      assert (Hf : In (outbound.DoHCaller url d)
                     (List.filter outbound.isDoH (conf.GenCallers g)))
        by (apply List.filter_In; split; [exact H | reflexivity]).
      rewrite GenCallers_https in Hf.
      apply in_flat_map in Hf as (entry & Hentry & Hc).
      unfold conf.dohLoop in Hc.
      destruct (regexp.MatchString conf.dohReg entry) eqn:Hm;
        simpl in Hc; [|contradiction].
      destruct Hc as [[= ->]|[]]. auto.
    + intros [Hin Hm].
      assert (Hf : In (outbound.DoHCaller url d)
                     (List.filter outbound.isDoH (conf.GenCallers g))).
      { rewrite GenCallers_https. apply in_flat_map. exists url.
        split; [exact Hin|]. unfold conf.dohLoop. rewrite Hm. now left. }
      now apply List.filter_In in Hf as [Hf _].
  - intros entry. unfold conf.dohLoop.
    destruct (regexp.MatchString conf.dohReg entry); reflexivity.
  - apply dohReg_spec.
Qed.

Lemma GenCallers_DoH_pattern_witness :
  In (outbound.DoHCaller "https://cloudflare-dns.com/dns-query"
        (conf.GenDialer Examples.dirty))
     (conf.GenCallers Examples.dirty).
Proof.
  destruct (GenCallers_DoH_pattern Examples.dirty) as (_ & H & _).
  apply (H "https://cloudflare-dns.com/dns-query").
  split; [simpl; auto | vm_compute; reflexivity].
Defined.

(** ** [SetDefault] *)

Lemma SetDefault_eq (c : conf.Conf) :
  conf.SetDefault c
  = {| conf.Listen :=
         if String.eqb (conf.Listen c) "" then ":53" else conf.Listen c;
       conf.GFWList :=
         if String.eqb (conf.GFWList c) "" then "gfwlist.txt"
         else conf.GFWList c;
       conf.CNIP :=
         if String.eqb (conf.CNIP c) "" then "cnip.txt" else conf.CNIP c;
       conf.HostsFiles := conf.HostsFiles c;
       conf.Hosts := conf.Hosts c;
       conf.ConfCache := conf.ConfCache c;
       conf.Groups := conf.Groups c |}.
Proof.
  destruct c as [listen gfw cnip files hosts cch groups].
  unfold conf.SetDefault. cbv zeta. simpl.
  destruct (String.eqb listen ""); simpl;
    destruct (String.eqb gfw ""); simpl;
    destruct (String.eqb cnip ""); reflexivity.
Qed.

(** C10: [SetDefault] sets [Listen], [GFWList] and [CNIP] to [:53],
    [gfwlist.txt] and [cnip.txt] where they are the empty string and
    leaves them alone otherwise; every other field is unchanged; and
    applying it twice is applying it once. *)
Theorem SetDefault_only_empty_fields (c : conf.Conf) :
  conf.Listen (conf.SetDefault c)
  = (if String.eqb (conf.Listen c) "" then ":53" else conf.Listen c)
  ∧ conf.GFWList (conf.SetDefault c)
    = (if String.eqb (conf.GFWList c) "" then "gfwlist.txt"
       else conf.GFWList c)
  ∧ conf.CNIP (conf.SetDefault c)
    = (if String.eqb (conf.CNIP c) "" then "cnip.txt" else conf.CNIP c)
  ∧ conf.HostsFiles (conf.SetDefault c) = conf.HostsFiles c
  ∧ conf.Hosts (conf.SetDefault c) = conf.Hosts c
  ∧ conf.ConfCache (conf.SetDefault c) = conf.ConfCache c
  ∧ conf.Groups (conf.SetDefault c) = conf.Groups c
  ∧ conf.SetDefault (conf.SetDefault c) = conf.SetDefault c.
Proof.
  rewrite !SetDefault_eq. simpl.
  repeat (split; [reflexivity|]).
  destruct c as [listen gfw cnip files hosts cch groups]; simpl.
  destruct (String.eqb listen "") eqn:El;
    destruct (String.eqb gfw "") eqn:Eg;
    destruct (String.eqb cnip "") eqn:Ec;
    simpl; rewrite ?El, ?Eg, ?Ec; reflexivity.
Qed.

(** ** [GenCache] *)

Section GenCacheFacts.

Import conf.

(** The product of a small number of seconds and [time.Second] does not
    wrap around. *)
Lemma mul_Second_exact n :
  -9223372036 ≤ n ≤ 9223372036 → time.mul n time.Second = n * time.Second.
Proof.
  intros H. unfold time.mul, time.wrap64, time.Second.
  rewrite Z.mod_small; lia.
Qed.

(** The defaulted [cache] section. *)
Lemma GenCache_Some (c : Conf) (cc : Cache) :
  ConfCache c = Some cc →
  let cc' :=
    {| Size := if Size cc =? 0 then 4096 else Size cc;
       MinTTL := if MinTTL cc =? 0 then 60 else MinTTL cc;
       MaxTTL := if MaxTTL cc =? 0 then 86400 else MaxTTL cc |} in
  GenCache c
  = Ok (setConfCache (Some cc') c,
        cache.NewDNSCache (Size cc') (time.mul (MinTTL cc') time.Second)
          (time.mul (MaxTTL cc') time.Second)).
Proof.
  intros H. unfold GenCache. rewrite H. destruct cc as [sz mn mx]; simpl.
  destruct (sz =? 0); simpl; destruct (mn =? 0); simpl;
    destruct (mx =? 0); reflexivity.
Qed.

End GenCacheFacts.

(** C9: on a configuration with a [cache] section, [GenCache] returns a
    cache whose size is 4096 when the configured size is zero and the
    configured size otherwise, whose minimal TTL is 60 seconds when
    [min_ttl] is zero and [min_ttl] seconds otherwise, and whose maximal
    TTL is 86400 seconds when [max_ttl] is zero and [max_ttl] seconds
    otherwise (seconds being turned into a [Duration] by the [int64]
    product with [time.Second], exact for every value up to
    9223372036 in magnitude); the values it leaves in the section are the
    defaulted ones, negative values included. *)
Theorem GenCache_zero_defaults (c : conf.Conf) (cc : conf.Cache)
    (Hsection : conf.ConfCache c = Some cc) :
  ∃ c' dnsCache,
    conf.GenCache c = Ok (c', dnsCache)
    ∧ cache.size dnsCache
      = (if conf.Size cc =? 0 then 4096 else conf.Size cc)
    ∧ cache.minTTL dnsCache
      = (if conf.MinTTL cc =? 0 then 60 * time.Second
         else time.mul (conf.MinTTL cc) time.Second)
    ∧ cache.maxTTL dnsCache
      = (if conf.MaxTTL cc =? 0 then 86400 * time.Second
         else time.mul (conf.MaxTTL cc) time.Second)
    ∧ (-9223372036 ≤ conf.MinTTL cc ≤ 9223372036 →
       conf.MinTTL cc ≠ 0 →
       cache.minTTL dnsCache = conf.MinTTL cc * time.Second)
    ∧ (-9223372036 ≤ conf.MaxTTL cc ≤ 9223372036 →
       conf.MaxTTL cc ≠ 0 →
       cache.maxTTL dnsCache = conf.MaxTTL cc * time.Second)
    ∧ cache.entries dnsCache = []
    ∧ conf.ConfCache c'
      = Some {| conf.Size :=
                  if conf.Size cc =? 0 then 4096 else conf.Size cc;
                conf.MinTTL :=
                  if conf.MinTTL cc =? 0 then 60 else conf.MinTTL cc;
                conf.MaxTTL :=
                  if conf.MaxTTL cc =? 0 then 86400 else conf.MaxTTL cc |}.
Proof.
  rewrite (GenCache_Some c cc Hsection). simpl.
  eexists _, _. split; [reflexivity|]. simpl.
  split; [reflexivity|].
  split; [destruct (conf.MinTTL cc =? 0); reflexivity|].
  split; [destruct (conf.MaxTTL cc =? 0); reflexivity|].
  split; [|split; [|split; reflexivity]].
  - intros Hr Hnz. apply Z.eqb_neq in Hnz. rewrite Hnz.
    now apply mul_Second_exact.
  - intros Hr Hnz. apply Z.eqb_neq in Hnz. rewrite Hnz.
    now apply mul_Second_exact.
Qed.

Lemma GenCache_zero_defaults_witness :
  ∃ c' dnsCache,
    conf.GenCache Examples.sizeZero = Ok (c', dnsCache)
    ∧ cache.size dnsCache = 4096
    ∧ cache.minTTL dnsCache = 60 * time.Second.
Proof.
  destruct (GenCache_zero_defaults Examples.sizeZero
              {| conf.Size := 0; conf.MinTTL := 60; conf.MaxTTL := 86400 |}
              eq_refl)
    as (c' & dnsCache & Hgen & Hsize & Hmin & _).
  exists c', dnsCache. split; [exact Hgen|]. split; [exact Hsize|].
  rewrite Hmin. reflexivity.
Defined.

(** ** The cache behind [GenCache] *)

Section CacheFacts.

(** A cache with a non-positive size never changes. *)
Lemma Set_disabled dflt (c : cache.DNSCache) now k r :
  cache.size c ≤ 0 → cache.Set_ dflt c now k r = c.
Proof.
  intros H. unfold cache.Set_. apply Z.leb_le in H. now rewrite H.
Qed.

(** A cache with a non-positive size never hits. *)
Lemma Get_disabled (c : cache.DNSCache) now k :
  cache.size c ≤ 0 → cache.Get c now k = None.
Proof.
  intros H. unfold cache.Get. apply Z.leb_le in H. now rewrite H.
Qed.

Lemma keyEqb_refl k : cache.keyEqb k k = true.
Proof.
  unfold cache.keyEqb. now rewrite String.eqb_refl, !Z.eqb_refl.
Qed.

Lemma find_last {A : Type} (f : A → bool) (l : list A) (x : A) :
  (∀ y, In y l → f y = false) → f x = true →
  List.find f (l ++ [x]) = Some x.
Proof.
  intros Hl Hx. induction l as [|y l IH]; simpl.
  - now rewrite Hx.
  - rewrite (Hl y) by now left. apply IH. intros z Hz. apply Hl. now right.
Qed.

(** An enabled cache hands back what was just stored, until it expires. *)
Lemma Set_then_Get dflt (c : cache.DNSCache) now k r now' :
  0 < cache.size c →
  now' < now + cache.clamp (cache.originTTL dflt r)
                 (cache.minTTL c) (cache.maxTTL c) →
  cache.Get (cache.Set_ dflt c now k r) now' k = Some r.
Proof.
  intros Hsize Hlive. unfold cache.Get, cache.Set_.
  assert (Hpos : (cache.size c <=? 0) = false) by (apply Z.leb_gt; lia).
  rewrite Hpos. simpl. rewrite Hpos.
  rewrite find_last.
  - simpl. apply Z.ltb_lt in Hlive. now rewrite Hlive.
  - intros e He.
    set (others := List.filter _ (cache.entries c)) in He.
    assert (Hin : In e others).
    { rewrite <- (firstn_skipn
                    (length others + 1 - Z.to_nat (cache.size c)) others).
      apply in_or_app. now right. }
    apply List.filter_In in Hin as [_ Hne].
    now apply negb_true_iff in Hne.
  - apply keyEqb_refl.
Qed.

End CacheFacts.

(** C2, as the code has it: for every configuration whose cache size is
    negative, the cache produced by [GenCache] has that size and is
    disabled: [Set] leaves it as it is, whatever is stored and whenever,
    and [Get] misses for every key at every instant, also after any
    sequence of [Set]s. *)
Theorem GenCache_negative_size_disables (c : conf.Conf) (cc : conf.Cache)
    (Hsection : conf.ConfCache c = Some cc) (Hsize : conf.Size cc < 0) :
  ∃ c' dnsCache,
    conf.GenCache c = Ok (c', dnsCache)
    ∧ cache.size dnsCache = conf.Size cc
    ∧ (∀ dflt now k r, cache.Set_ dflt dnsCache now k r = dnsCache)
    ∧ (∀ now k, cache.Get dnsCache now k = None)
    ∧ (∀ dflt (sets : list (Z * cache.QueryKey * cache.Response)) now k,
         cache.Get
           (fold_left (λ dc '(t, k', r), cache.Set_ dflt dc t k' r)
              sets dnsCache)
           now k
         = None).
Proof.
  rewrite (GenCache_Some c cc Hsection). cbv zeta.
  assert (Hnz : (conf.Size cc =? 0) = false) by (apply Z.eqb_neq; lia).
  eexists _, _. split; [reflexivity|].
  match goal with |- cache.size ?dc = _ ∧ _ => set (dnsCache := dc) end.
  assert (Hsz : cache.size dnsCache = conf.Size cc)
    by (subst dnsCache; simpl; now rewrite Hnz).
  assert (Hle : cache.size dnsCache ≤ 0) by lia.
  split; [exact Hsz|].
  split; [|split].
  - intros. now apply Set_disabled.
  - intros. now apply Get_disabled.
  - intros dflt sets now k.
    assert (Hfix : fold_left (λ dc '(t, k', r), cache.Set_ dflt dc t k' r)
                     sets dnsCache = dnsCache).
    { induction sets as [|[[t k'] r] sets IH]; simpl; [reflexivity|].
      rewrite Set_disabled by exact Hle. exact IH. }
    rewrite Hfix. now apply Get_disabled.
Qed.

Lemma GenCache_negative_size_disables_witness :
  ∃ c' dnsCache,
    conf.GenCache Examples.sizeNegative = Ok (c', dnsCache)
    ∧ cache.Set_ 0 dnsCache 0 Examples.query Examples.answer = dnsCache
    ∧ cache.Get dnsCache 0 Examples.query = None.
Proof.
  destruct (GenCache_negative_size_disables Examples.sizeNegative
              {| conf.Size := -1; conf.MinTTL := 60; conf.MaxTTL := 86400 |}
              eq_refl ltac:(simpl; lia))
    as (c' & dnsCache & Hgen & _ & Hset & Hget & _).
  exists c', dnsCache. auto.
Defined.

(** C2 fails for a size of zero: [GenCache] replaces it by 4096, and the
    cache it returns stores an answer and hands it back. *)
Lemma GenCache_size_zero_not_disabled :
  ¬ (∀ (c : conf.Conf) (cc : conf.Cache) c' dnsCache,
       conf.ConfCache c = Some cc → conf.Size cc ≤ 0 →
       conf.GenCache c = Ok (c', dnsCache) →
       (∀ dflt now k r, cache.Set_ dflt dnsCache now k r = dnsCache)
       ∧ (∀ now k, cache.Get dnsCache now k = None)).
Proof.
  intros H.
  destruct (H Examples.sizeZero
              {| conf.Size := 0; conf.MinTTL := 60; conf.MaxTTL := 86400 |}
              _ _ eq_refl ltac:(simpl; lia) eq_refl) as [Hset _].
  specialize (Hset 0 0 Examples.query Examples.answer).
  vm_compute in Hset. discriminate Hset.
Qed.

(** ** Results of logging computations *)

Section MonadFacts.

Context {A B : Type}.

Lemma fst_bind (m : M A) (k : A → M B) :
  fst (bind m k)
  = match fst m with
    | Ok a => fst (k a)
    | Error err => Error err
    | Panic msg => Panic msg
    end.
Proof.
  destruct m as [[a|err|msg] l]; simpl; [|reflexivity|reflexivity].
  destruct (k a); reflexivity.
Qed.

Lemma snd_bind (m : M A) (k : A → M B) :
  snd (bind m k)
  = match fst m with
    | Ok a => snd m ++ snd (k a)
    | _ => snd m
    end.
Proof.
  destruct m as [[a|err|msg] l]; simpl; [|reflexivity|reflexivity].
  destruct (k a); reflexivity.
Qed.

End MonadFacts.

Lemma fst_forRange_cons {A S : Type} (body : S → A → M S) x l s :
  fst (conf.forRange body (x :: l) s)
  = match fst (body s x) with
    | Ok s' => fst (conf.forRange body l s')
    | Error err => Error err
    | Panic msg => Panic msg
    end.
Proof. simpl. apply fst_bind. Qed.

(** ** [GenHostsReader] *)

Section HostsFacts.

Import conf.

Variable env : Env.

Lemma hosts_lines (l : list (string * string)) (acc : list string) :
  fold_left (λ lines '(hostname, ip), lines ++ [ip +:+ " " +:+ hostname])
    l acc
  = acc ++ map (λ '(hostname, ip), ip +:+ " " +:+ hostname) l.
Proof.
  revert acc. induction l as [|[h ip] l IH]; intros acc; simpl.
  - now rewrite app_nil_r.
  - rewrite IH. now rewrite <- app_assoc.
Qed.

(** The loop over the hosts files never fails: a file that cannot be read
    costs a warning and is passed over. *)
Lemma hostsFiles_loop files readers :
  forRange (hostsFileLoop env) files readers
  = (Ok (readers
         ++ omap (λ f, match ReadFile env f with
                       | Success content => Some (hosts.FileReader f content 0)
                       | Failure _ => None
                       end) files),
     omap (λ f, match ReadFile env f with
                | Success _ => None
                | Failure err =>
                    Some {| log.level := log.WarnLevel;
                            log.fields := [("file", f)];
                            log.message := "read hosts error: " +:+ err |}
                end) files).
Proof.
  revert readers. induction files as [|f files IH]; intros readers; simpl.
  - now rewrite app_nil_r.
  - unfold hostsFileLoop at 1, hosts.NewReaderByFile.
    destruct (ReadFile env f) as [content|err]; simpl; rewrite IH; simpl.
    + now rewrite <- app_assoc.
    + reflexivity.
Qed.

End HostsFacts.

(** ** [NewHandler] *)

Section NewHandlerFacts.

Import conf.

Variable env : Env.

Lemma GenHostsReader_eq (c : Conf) :
  GenHostsReader env c
  = (Ok (match Hosts c with
         | [] => []
         | _ :: _ =>
             [hosts.TextReader
                (GoStrings.Join
                   (map (λ '(hostname, ip), ip +:+ " " +:+ hostname) (Hosts c))
                   (String "010" ""))]
         end
         ++ omap (λ f, match ReadFile env f with
                       | Success content => Some (hosts.FileReader f content 0)
                       | Failure _ => None
                       end) (HostsFiles c)),
     omap (λ f, match ReadFile env f with
                | Success _ => None
                | Failure err =>
                    Some {| log.level := log.WarnLevel;
                            log.fields := [("file", f)];
                            log.message := "read hosts error: " +:+ err |}
                end) (HostsFiles c)).
Proof.
  unfold GenHostsReader. rewrite hosts_lines, hostsFiles_loop. simpl.
  destruct (Hosts c) as [|[h ip] l]; reflexivity.
Qed.

Lemma groupLoop_fst groups name g :
  fst (groupLoop env groups (name, g))
  = match GenIPSet env g with
    | Failure err => Error err
    | Success ipSet => Ok (<[name := handlerGroup g ipSet]> groups)
    end.
Proof.
  unfold groupLoop. rewrite fst_bind.
  destruct (Concurrent g); simpl; destruct (GenIPSet env g); reflexivity.
Qed.

(** The loop over the groups does not panic. *)
Lemma groups_loop_no_panic l groups msg :
  fst (forRange (groupLoop env) l groups) ≠ Panic msg.
Proof.
  revert groups. induction l as [|[name g] l IH]; intros groups.
  - discriminate.
  - rewrite fst_forRange_cons, groupLoop_fst.
    destruct (GenIPSet env g); [apply IH | discriminate].
Qed.

(** What the loop over the groups leaves in the map came from an entry of
    the configuration, whose IP set could be made, or was there before. *)
Lemma groups_loop_inv l groups groups' :
  fst (forRange (groupLoop env) l groups) = Ok groups' →
  ∀ name hg,
    groups' !! name = Some hg →
    groups !! name = Some hg
    ∨ ∃ g ipSet,
        In (name, g) l ∧ GenIPSet env g = Success ipSet
        ∧ hg = handlerGroup g ipSet.
Proof.
  revert groups. induction l as [|[n g] l IH]; intros groups H name hg Hl.
  - injection H as <-. auto.
  - rewrite fst_forRange_cons, groupLoop_fst in H.
    destruct (GenIPSet env g) as [ipSet|err] eqn:Hg; [|discriminate].
    destruct (IH _ H name hg Hl) as [Hold|(g' & s & Hin & Hs & ->)].
    + destruct (decide (n = name)) as [->|Hne].
      * rewrite lookup_insert_eq in Hold. injection Hold as <-.
        right. exists g, ipSet. repeat split; auto. now left.
      * rewrite lookup_insert_ne in Hold by exact Hne. now left.
    + right. exists g', s. repeat split; auto. now right.
Qed.

(** When every IP set can be made, the loop over the groups ends with
    every entry of the configuration in the map. *)
Lemma groups_loop_ok l groups :
  (∀ name g, In (name, g) l → ∃ ipSet, GenIPSet env g = Success ipSet) →
  NoDup (map fst l) →
  ∃ groups',
    fst (forRange (groupLoop env) l groups) = Ok groups'
    ∧ (∀ name g,
         In (name, g) l →
         ∃ ipSet, GenIPSet env g = Success ipSet
                  ∧ groups' !! name = Some (handlerGroup g ipSet))
    ∧ (∀ name, ¬ In name (map fst l) → groups' !! name = groups !! name).
Proof.
  revert groups. induction l as [|[n g] l IH]; intros groups Hall Hnd.
  - exists groups. split; [reflexivity|]. split; [intros ? ? []|auto].
  - rewrite fst_forRange_cons, groupLoop_fst.
    destruct (Hall n g (or_introl eq_refl)) as [ipSet Hg]. rewrite Hg.
    simpl in Hnd. apply NoDup_cons in Hnd as [Hn Hnd].
    rewrite list_elem_of_In in Hn.
    destruct (IH (<[n:=handlerGroup g ipSet]> groups)) as (m' & Hm' & Hin & Hout).
    { intros name g' Hin'. apply (Hall name g'). now right. }
    { exact Hnd. }
    exists m'. split; [exact Hm'|]. split.
    + intros name g' [[= <- <-]|Hin'].
      * exists ipSet. split; [exact Hg|].
        rewrite Hout by exact Hn. apply lookup_insert_eq.
      * now apply Hin.
    + intros name Hname. simpl in Hname.
      rewrite Hout by tauto. apply lookup_insert_ne. tauto.
Qed.

(** The result of [NewHandler], step by step. *)
Lemma NewHandler_fst filename :
  fst (NewHandler env filename)
  = match DecodeFile env filename with
    | Failure err => Error err
    | Success config =>
        match ReadFile env (GFWList (SetDefault config)) with
        | Failure err => Error err
        | Success gfwText =>
            match cache.NewRamSetByFile (ReadFile env)
                    (CNIP (SetDefault config)) with
            | Failure err => Error err
            | Success cnip =>
                match GenCache (SetDefault config) with
                | Error err => Error err
                | Panic msg => Panic msg
                | Ok (_, dnsCache) =>
                    match fst (forRange (groupLoop env)
                                 (Groups config) ∅) with
                    | Error err => Error err
                    | Panic msg => Panic msg
                    | Ok groups =>
                        match invalidGroups groups with
                        | Error err => Error err
                        | Panic msg => Panic msg
                        | Ok true => Error emptyGroupError
                        | Ok false =>
                            Ok {| inbound.Listen := Listen (SetDefault config);
                                  inbound.GFWMatcher :=
                                    matcher.NewABPByText gfwText;
                                  inbound.CNIP := cnip;
                                  inbound.HostsReaders :=
                                    match fst (GenHostsReader env
                                                 (SetDefault config)) with
                                    | Ok readers => readers
                                    | _ => []
                                    end;
                                  inbound.Cache := dnsCache;
                                  inbound.Groups := groups |}
                        end
                    end
                end
            end
        end
    end.
Proof.
  unfold NewHandler. destruct (DecodeFile env filename) as [config|err];
    [|reflexivity].
  unfold matcher.NewABPByFile.
  destruct (ReadFile env (GFWList (SetDefault config))) as [gfwText|err];
    [|reflexivity].
  destruct (cache.NewRamSetByFile (ReadFile env) (CNIP (SetDefault config)))
    as [cnip|err]; [|reflexivity].
  rewrite fst_bind, GenHostsReader_eq. cbn [fst].
  rewrite fst_bind. unfold lift at 1. cbn [fst].
  assert (Hgroups : Groups (SetDefault config) = Groups config)
    by (rewrite SetDefault_eq; reflexivity).
  destruct (GenCache (SetDefault config)) as [[config' dnsCache]|err|msg] eqn:Hc;
    [|reflexivity|reflexivity].
  assert (Hconfig' : Groups config' = Groups config).
  { unfold GenCache in Hc. destruct (ConfCache (SetDefault config));
      [|discriminate]. injection Hc as <- _. exact Hgroups. }
  rewrite fst_bind, Hconfig'.
  destruct (fst (forRange (groupLoop env) (Groups config) ∅))
    as [groups|err|msg]; [|reflexivity|reflexivity].
  rewrite fst_bind. unfold lift at 1. cbn [fst].
  destruct (invalidGroups groups) as [[|]|err|msg]; reflexivity.
Qed.

(** Every group of a returned handler was assembled from a group of the
    decoded configuration. *)
Lemma NewHandler_groups_origin filename h :
  fst (NewHandler env filename) = Ok h →
  ∃ config,
    DecodeFile env filename = Success config
    ∧ ∀ name hg,
        inbound.Groups h !! name = Some hg →
        ∃ g ipSet, In (name, g) (Groups config) ∧ hg = handlerGroup g ipSet.
Proof.
  rewrite NewHandler_fst. intros Hok.
  destruct (DecodeFile env filename) as [config|]; [|discriminate].
  destruct (ReadFile env _) as [gfwText|]; [|discriminate].
  destruct (cache.NewRamSetByFile _ _) as [cnip|]; [|discriminate].
  destruct (GenCache _) as [[config' dnsCache]| |]; try discriminate.
  destruct (fst (forRange _ _ _)) as [groups| |] eqn:Hloop;
    try discriminate.
  destruct (invalidGroups groups) as [[|]| |]; try discriminate.
  injection Hok as <-. simpl. exists config. split; [reflexivity|].
  intros name hg Hl.
  destruct (groups_loop_inv _ _ _ Hloop name hg Hl)
    as [Hempty|(g & ipSet & Hin & _ & ->)].
  - rewrite lookup_empty in Hempty. discriminate.
  - eauto.
Qed.

End NewHandlerFacts.

(** A Go map has one entry for a key. *)
Lemma NoDup_fst_In_eq {A : Type} (l : list (string * A)) name (x y : A) :
  NoDup (map fst l) → In (name, x) l → In (name, y) l → x = y.
Proof.
  induction l as [|[n z] l IH]; simpl; intros Hnd Hx Hy; [contradiction|].
  apply NoDup_cons in Hnd as [Hn Hnd]. rewrite list_elem_of_In in Hn.
  destruct Hx as [Hx|Hx], Hy as [Hy|Hy].
  - congruence.
  - injection Hx as -> ->. exfalso. apply Hn. apply in_map_iff.
    exists (name, y). auto.
  - injection Hy as -> ->. exfalso. apply Hn. apply in_map_iff.
    exists (name, x). auto.
  - now apply IH.
Qed.

(** A handler is only returned with both mandatory groups in its map,
    each with at least one caller. *)
Lemma NewHandler_handler_has_mandatory_groups env filename h :
  fst (conf.NewHandler env filename) = Ok h →
  ∃ clean dirty,
    inbound.Groups h !! "clean" = Some clean ∧ inbound.Callers clean ≠ []
    ∧ inbound.Groups h !! "dirty" = Some dirty ∧ inbound.Callers dirty ≠ [].
Proof.
  rewrite NewHandler_fst. intros H.
  destruct (conf.DecodeFile env filename) as [config|]; [|discriminate].
  destruct (conf.ReadFile env _) as [gfwText|]; [|discriminate].
  destruct (cache.NewRamSetByFile _ _) as [cnip|]; [|discriminate].
  destruct (conf.GenCache _) as [[config' dnsCache]| |]; try discriminate.
  destruct (fst (conf.forRange _ _ _)) as [groups| |]; try discriminate.
  unfold conf.invalidGroups in H.
  destruct (size groups <=? 0)%nat; [discriminate|].
  destruct (groups !! "clean") as [clean|] eqn:Hclean; [|discriminate].
  destruct (inbound.Callers clean) as [|c cs] eqn:Hcs; [discriminate|].
  destruct (groups !! "dirty") as [dirty|] eqn:Hdirty; [|discriminate].
  destruct (inbound.Callers dirty) as [|d ds] eqn:Hds; [discriminate|].
  simpl in H. injection H as <-. simpl.
  exists clean, dirty. rewrite Hcs, Hds. repeat split; auto; discriminate.
Qed.

(** No handler is returned for a configuration without a [dirty] group
    or with a [clean] group that has no caller. *)
Lemma NewHandler_no_handler env filename config h :
  conf.DecodeFile env filename = Success config →
  NoDup (map fst (conf.Groups config)) →
  (∀ g, ¬ In ("dirty", g) (conf.Groups config))
  ∨ (∃ g, In ("clean", g) (conf.Groups config) ∧ conf.GenCallers g = []) →
  fst (conf.NewHandler env filename) ≠ Ok h.
Proof.
  intros Hdec Hnd Hbad Hok.
  destruct (NewHandler_handler_has_mandatory_groups _ _ _ Hok)
    as (clean & dirty & Hclean & Hcs & Hdirty & _).
  destruct (NewHandler_groups_origin _ _ _ Hok) as (config' & Hdec' & Horigin).
  rewrite Hdec in Hdec'. injection Hdec' as <-.
  destruct Hbad as [Hnone|(g & Hg & Hempty)].
  - destruct (Horigin _ _ Hdirty) as (g & _ & Hin & _). now apply (Hnone g).
  - destruct (Horigin _ _ Hclean) as (g' & ipSet & Hin & ->).
    rewrite (NoDup_fst_In_eq _ _ _ _ Hnd Hin Hg) in Hcs. simpl in Hcs.
    contradiction.
Qed.

(** With a [clean] group that has no caller, a configuration that gets as
    far as the validity test is turned down with the error meant for it. *)
Lemma NewHandler_clean_without_callers env filename config g :
  conf.DecodeFile env filename = Success config →
  (∃ text,
     conf.ReadFile env (conf.GFWList (conf.SetDefault config)) = Success text) →
  (∃ text,
     conf.ReadFile env (conf.CNIP (conf.SetDefault config)) = Success text) →
  (∃ section, conf.ConfCache config = Some section) →
  (∀ name g',
     In (name, g') (conf.Groups config) →
     ∃ ipSet, conf.GenIPSet env g' = Success ipSet) →
  NoDup (map fst (conf.Groups config)) →
  In ("clean", g) (conf.Groups config) → conf.GenCallers g = [] →
  fst (conf.NewHandler env filename) = Error conf.emptyGroupError.
Proof.
  intros Hdecode [gfwText Hgfw] [cnipText Hcnip] [section Hcache]
    Hipset Hnames Hg Hempty.
  rewrite NewHandler_fst, Hdecode, Hgfw.
  unfold cache.NewRamSetByFile. rewrite Hcnip.
  assert (Hsec : conf.ConfCache (conf.SetDefault config) = Some section).
  { rewrite <- Hcache, SetDefault_eq. reflexivity. }
  rewrite (GenCache_Some _ _ Hsec). cbv zeta.
  destruct (groups_loop_ok env (conf.Groups config) ∅ Hipset Hnames)
    as (groups & Hloop & Hin & _).
  rewrite Hloop. destruct (Hin _ _ Hg) as (s & _ & Hl).
  unfold conf.invalidGroups. rewrite Hl. simpl. rewrite Hempty. simpl.
  destruct (size groups <=? 0)%nat; reflexivity.
Qed.

(** C1, at the configuration of [ts-dns-full.toml] without its
    [groups.dirty] section: [NewHandler] does not return a nil handler
    with an error, it panics on reading [Callers] through the nil
    [handler.Groups["dirty"]]. *)
Theorem NewHandler_missing_dirty_panics :
  fst (conf.NewHandler (Examples.env Examples.noDirty) "ts-dns.toml")
  = Panic nilDereference.
Proof. vm_compute. reflexivity. Qed.

(** C7: [GenHostsReader] never fails.  It returns one reader for the
    inline hosts records when there are any, followed by one reader for
    each hosts file that can be read, in order; each file that cannot be
    read costs one warning and nothing else.  And what [NewHandler]
    returns does not depend on the hosts files but for the handler's
    hosts readers: whatever files the configuration lists, readable or
    not, the same error is returned, or the same panic raised, or a
    handler returned that is the same in every other field. *)
Theorem GenHostsReader_swallows_read_failures (env : conf.Env)
    (c : conf.Conf) :
  conf.GenHostsReader env c
  = (Ok (match conf.Hosts c with
         | [] => []
         | _ :: _ =>
             [hosts.TextReader
                (GoStrings.Join
                   (map (λ '(hostname, ip), ip +:+ " " +:+ hostname)
                      (conf.Hosts c))
                   (String "010" ""))]
         end
         ++ omap (λ f, match conf.ReadFile env f with
                       | Success content => Some (hosts.FileReader f content 0)
                       | Failure _ => None
                       end) (conf.HostsFiles c)),
     omap (λ f, match conf.ReadFile env f with
                | Success _ => None
                | Failure err =>
                    Some {| log.level := log.WarnLevel;
                            log.fields := [("file", f)];
                            log.message := "read hosts error: " +:+ err |}
                end) (conf.HostsFiles c))
  ∧ ∀ filename files,
      match fst (conf.NewHandler (conf.withHostsFiles files env) filename),
            fst (conf.NewHandler env filename) with
      | Ok h', Ok h =>
          inbound.Listen h' = inbound.Listen h
          ∧ inbound.GFWMatcher h' = inbound.GFWMatcher h
          ∧ inbound.CNIP h' = inbound.CNIP h
          ∧ inbound.Cache h' = inbound.Cache h
          ∧ inbound.Groups h' = inbound.Groups h
      | Error err', Error err => err' = err
      | Panic msg', Panic msg => msg' = msg
      | _, _ => False
      end.
Proof.
  split; [apply GenHostsReader_eq|]. intros filename files.
  rewrite !NewHandler_fst. simpl.
  destruct (conf.DecodeFile env filename) as [config|err]; [|reflexivity].
  rewrite !SetDefault_eq. simpl.
  destruct (conf.ReadFile env _) as [gfwText|err]; [|reflexivity].
  destruct (cache.NewRamSetByFile _ _) as [cnip|err]; [|reflexivity].
  unfold conf.GenCache. simpl.
  destruct (conf.ConfCache config) as [cc|]; [|reflexivity].
  destruct (fst (conf.forRange _ _ _)) as [groups|err|msg];
    [|reflexivity|reflexivity].
  destruct (conf.invalidGroups groups) as [[|]|err|msg]; try reflexivity.
  simpl. auto.
Qed.

(** C3, as the code has it: in a handler that [NewHandler] returns, the
    matcher of every group is built from that group's inline rule list
    alone, its rules joined by line feeds; the imported deny-list is
    loaded into the handler's own deny-list matcher and into no group's
    matcher. *)
Theorem group_matcher_from_inline_rules (env : conf.Env) (filename : string)
    (h : inbound.Handler)
    (Hok : fst (conf.NewHandler env filename) = Ok h) :
  ∃ config gfwText,
    conf.DecodeFile env filename = Success config
    ∧ conf.ReadFile env (conf.GFWList (conf.SetDefault config))
      = Success gfwText
    ∧ inbound.GFWMatcher h = matcher.NewABPByText gfwText
    ∧ ∀ name hg,
        inbound.Groups h !! name = Some hg →
        ∃ g, In (name, g) (conf.Groups config)
             ∧ inbound.Matcher hg
               = matcher.NewABPByText
                   (GoStrings.Join (conf.Rules g) (String "010" "")).
Proof.
  rewrite NewHandler_fst in Hok.
  destruct (conf.DecodeFile env filename) as [config|]; [|discriminate].
  destruct (conf.ReadFile env _) as [gfwText|] eqn:Hgfw; [|discriminate].
  destruct (cache.NewRamSetByFile _ _) as [cnip|]; [|discriminate].
  destruct (conf.GenCache _) as [[config' dnsCache]| |]; try discriminate.
  destruct (fst (conf.forRange _ _ _)) as [groups| |] eqn:Hloop;
    try discriminate.
  destruct (conf.invalidGroups groups) as [[|]| |]; try discriminate.
  injection Hok as <-. simpl.
  exists config, gfwText. repeat split; auto.
  intros name hg Hl.
  destruct (groups_loop_inv env _ _ _ Hloop name hg Hl)
    as [Hempty|(g & ipSet & Hin & _ & ->)].
  - rewrite lookup_empty in Hempty. discriminate.
  - exists g. split; [exact Hin | reflexivity].
Qed.

Lemma group_matcher_from_inline_rules_witness :
  ∃ h,
    fst (conf.NewHandler (Examples.env Examples.full) "ts-dns.toml") = Ok h
    ∧ ∃ config gfwText,
        conf.DecodeFile (Examples.env Examples.full) "ts-dns.toml"
        = Success config
        ∧ conf.ReadFile (Examples.env Examples.full)
            (conf.GFWList (conf.SetDefault config))
          = Success gfwText
        ∧ inbound.GFWMatcher h = matcher.NewABPByText gfwText
        ∧ ∀ name hg,
            inbound.Groups h !! name = Some hg →
            ∃ g, In (name, g) (conf.Groups config)
                 ∧ inbound.Matcher hg
                   = matcher.NewABPByText
                       (GoStrings.Join (conf.Rules g) (String "010" "")).
Proof.
  eexists. split.
  - vm_compute. reflexivity.
  - apply (group_matcher_from_inline_rules (Examples.env Examples.full)
             "ts-dns.toml").
    vm_compute. reflexivity.
Defined.

(** C3 fails as stated: with [blocked.example] on the deny-list and in no
    group's rule list, the handler's deny-list matcher matches it and the
    matcher of the group [dirty] does not. *)
Lemma deny_list_not_in_group_matcher :
  ∃ h dirty,
    conf.ReadFile (Examples.env Examples.full) "gfwlist.txt"
    = Success ("! deny-list" +:+ String "010" "blocked.example"
               +:+ String "010" "")
    ∧ fst (conf.NewHandler (Examples.env Examples.full) "ts-dns.toml") = Ok h
    ∧ matcher.Match (inbound.GFWMatcher h) "blocked.example" = true
    ∧ inbound.Groups h !! "dirty" = Some dirty
    ∧ matcher.Match (inbound.Matcher dirty) "blocked.example" = false.
Proof.
  eexists. eexists. split; [reflexivity|].
  split; [vm_compute; reflexivity|].
  split; [vm_compute; reflexivity|].
  split; vm_compute; reflexivity.
Qed.

(** C8, as the code has it: for a configuration with a [cache] section
    in which [clean] and [dirty] each have at least one caller, when the
    deny-list and the CN-IP list can be read and the IP set of every group
    can be made, [NewHandler] returns a handler, and every group of the
    configuration is in the handler's map with the callers generated for
    it, a group with no caller included. *)
Theorem NewHandler_other_groups_may_be_empty (env : conf.Env)
    (filename : string) (config : conf.Conf)
    (Hdecode : conf.DecodeFile env filename = Success config)
    (Hgfw : ∃ text,
        conf.ReadFile env (conf.GFWList (conf.SetDefault config))
        = Success text)
    (Hcnip : ∃ text,
        conf.ReadFile env (conf.CNIP (conf.SetDefault config))
        = Success text)
    (Hcache : ∃ section, conf.ConfCache config = Some section)
    (Hipset : ∀ name g,
        In (name, g) (conf.Groups config) →
        ∃ ipSet, conf.GenIPSet env g = Success ipSet)
    (Hnames : NoDup (map fst (conf.Groups config)))
    (Hclean : ∃ g,
        In ("clean", g) (conf.Groups config) ∧ conf.GenCallers g ≠ [])
    (Hdirty : ∃ g,
        In ("dirty", g) (conf.Groups config) ∧ conf.GenCallers g ≠ []) :
  ∃ h,
    fst (conf.NewHandler env filename) = Ok h
    ∧ ∀ name g,
        In (name, g) (conf.Groups config) →
        ∃ hg, inbound.Groups h !! name = Some hg
              ∧ inbound.Callers hg = conf.GenCallers g.
Proof.
  destruct Hgfw as [gfwText Hgfw], Hcnip as [cnipText Hcnip],
    Hcache as [section Hcache].
  rewrite NewHandler_fst, Hdecode, Hgfw.
  unfold cache.NewRamSetByFile. rewrite Hcnip.
  assert (Hsec : conf.ConfCache (conf.SetDefault config) = Some section).
  { rewrite <- Hcache, SetDefault_eq. reflexivity. }
  rewrite (GenCache_Some _ _ Hsec). cbv zeta.
  destruct (groups_loop_ok env (conf.Groups config) ∅ Hipset Hnames)
    as (groups & Hloop & Hin & _).
  rewrite Hloop.
  destruct Hclean as (gc & Hgc & Hcc), Hdirty as (gd & Hgd & Hcd).
  destruct (Hin _ _ Hgc) as (sc & _ & Hlc).
  destruct (Hin _ _ Hgd) as (sd & _ & Hld).
  assert (Hvalid : conf.invalidGroups groups = Ok false).
  { unfold conf.invalidGroups. rewrite Hlc, Hld. simpl.
    destruct (size groups) eqn:Hsz.
    - apply map_size_empty_iff in Hsz. subst groups.
      rewrite lookup_empty in Hlc. discriminate.
    - simpl. destruct (conf.GenCallers gc); [congruence|].
      destruct (conf.GenCallers gd); [congruence|]. reflexivity. }
  rewrite Hvalid. eexists. split; [reflexivity|]. simpl.
  intros name g Hg. destruct (Hin _ _ Hg) as (s & _ & Hl).
  eexists. split; [exact Hl | reflexivity].
Qed.

Lemma NewHandler_other_groups_may_be_empty_witness :
  ∃ h,
    fst (conf.NewHandler (Examples.env Examples.withIdle) "ts-dns.toml")
    = Ok h
    ∧ ∃ hg, inbound.Groups h !! "idle" = Some hg
            ∧ inbound.Callers hg = conf.GenCallers Examples.idle.
Proof.
  destruct (NewHandler_other_groups_may_be_empty
              (Examples.env Examples.withIdle) "ts-dns.toml"
              Examples.withIdle)
    as (h & Hok & Hgroups).
  - reflexivity.
  - eexists. vm_compute. reflexivity.
  - eexists. vm_compute. reflexivity.
  - eexists. reflexivity.
  - intros name g Hin. simpl in Hin.
    destruct Hin as [[= <- <-]|[[= <- <-]|[[= <- <-]|[]]]];
      eexists; vm_compute; reflexivity.
  - simpl. repeat (apply NoDup_cons_2;
                   [rewrite list_elem_of_In; simpl; intuition discriminate|]).
    apply NoDup_nil_2.
  - exists Examples.clean. split; [simpl; auto | vm_compute; discriminate].
  - exists Examples.dirty. split; [simpl; auto | vm_compute; discriminate].
  - exists h. split; [exact Hok|].
    apply (Hgroups "idle" Examples.idle). simpl. auto.
Defined.

(** C8 fails as stated: the configuration of [ts-dns-full.toml] has
    callers in [clean] and in [dirty], and [NewHandler] returns an error
    for it when the deny-list cannot be read. *)
Lemma NewHandler_fails_without_deny_list :
  (∃ g, In ("clean", g) (conf.Groups Examples.full) ∧ conf.GenCallers g ≠ [])
  ∧ (∃ g, In ("dirty", g) (conf.Groups Examples.full)
          ∧ conf.GenCallers g ≠ [])
  ∧ conf.DecodeFile (Examples.envNoFiles Examples.full) "ts-dns.toml"
    = Success Examples.full
  ∧ fst (conf.NewHandler (Examples.envNoFiles Examples.full) "ts-dns.toml")
    = Error "open gfwlist.txt: no such file or directory".
Proof.
  split; [|split; [|split]].
  - exists Examples.clean. split; [simpl; auto | vm_compute; discriminate].
  - exists Examples.dirty. split; [simpl; auto | vm_compute; discriminate].
  - reflexivity.
  - vm_compute. reflexivity.
Qed.

(** ** What [NewHandler] writes to the log *)

Section LogFacts.

Import conf.

Variable env : Env.

Lemma GenHostsReader_snd (c : Conf) :
  snd (GenHostsReader env c) = Entries.unreadableHosts env (HostsFiles c).
Proof. rewrite GenHostsReader_eq. reflexivity. Qed.

Lemma groupLoop_snd groups name g :
  snd (groupLoop env groups (name, g))
  = (if Concurrent g then [Entries.concurrent name] else [])
    ++ match GenIPSet env g with
       | Failure err => [Entries.createIPSet err]
       | Success _ => []
       end.
Proof.
  unfold groupLoop. rewrite snd_bind.
  destruct (Concurrent g); simpl; destruct (GenIPSet env g); reflexivity.
Qed.

Lemma snd_forRange_cons {A S : Type} (body : S → A → M S) x l s :
  snd (forRange body (x :: l) s)
  = match fst (body s x) with
    | Ok s' => snd (body s x) ++ snd (forRange body l s')
    | _ => snd (body s x)
    end.
Proof. simpl. apply snd_bind. Qed.

(** The loop over the groups gets through every group whose IP set can
    be made, and writes one line for each concurrent one. *)
Lemma groups_loop_through l groups :
  (∀ name g, In (name, g) l → ∃ ipSet, GenIPSet env g = Success ipSet) →
  ∃ groups',
    fst (forRange (groupLoop env) l groups) = Ok groups'
    ∧ snd (forRange (groupLoop env) l groups) = Entries.concurrentGroups l.
Proof.
  revert groups. induction l as [|[n g] l IH]; intros groups Hall.
  - exists groups. split; reflexivity.
  - destruct (Hall n g (or_introl eq_refl)) as [ipSet Hg].
    destruct (IH (<[n:=handlerGroup g ipSet]> groups)) as (m' & Hf & Hs).
    { intros name g' Hin. apply (Hall name g'). now right. }
    exists m'. rewrite fst_forRange_cons, snd_forRange_cons.
    rewrite groupLoop_fst, groupLoop_snd, Hg, Hf, Hs.
    split; [reflexivity|]. rewrite app_nil_r. reflexivity.
Qed.

(** The loop over the groups stops at the first group whose IP set cannot
    be made, with the error of [ipset.New]. *)
Lemma groups_loop_stops pre name g post err groups :
  (∀ n' g', In (n', g') pre → ∃ ipSet, GenIPSet env g' = Success ipSet) →
  GenIPSet env g = Failure err →
  forRange (groupLoop env) (pre ++ (name, g) :: post) groups
  = (Error err,
     Entries.concurrentGroups (pre ++ [(name, g)])
     ++ [Entries.createIPSet err]).
Proof.
  revert groups. induction pre as [|[n g0] pre IH]; intros groups Hpre Hg.
  - apply injective_projections.
    + simpl app. rewrite fst_forRange_cons, groupLoop_fst, Hg. reflexivity.
    + simpl app. rewrite snd_forRange_cons, groupLoop_fst, groupLoop_snd, Hg.
      unfold Entries.concurrentGroups. simpl. now rewrite app_nil_r.
  - destruct (Hpre n g0 (or_introl eq_refl)) as [ipSet Hg0].
    assert (IH' := IH (<[n:=handlerGroup g0 ipSet]> groups)
                     (λ n' g' H, Hpre n' g' (or_intror H)) Hg).
    apply injective_projections.
    + change ((n, g0) :: pre ++ (name, g) :: post)
        with ((n, g0) :: (pre ++ (name, g) :: post)).
      rewrite <- app_comm_cons.
      rewrite fst_forRange_cons, groupLoop_fst, Hg0, IH'. reflexivity.
    + rewrite <- app_comm_cons.
      rewrite snd_forRange_cons, groupLoop_fst, groupLoop_snd, Hg0, IH'.
      unfold Entries.concurrentGroups. simpl.
      rewrite app_nil_r, <- !app_assoc. reflexivity.
Qed.

(** Either every IP set can be made, or there is a first group whose IP
    set cannot. *)
Lemma first_ipset_failure (l : list (string * Group)) :
  (∀ name g, In (name, g) l → ∃ ipSet, GenIPSet env g = Success ipSet)
  ∨ ∃ pre name g post err,
      l = pre ++ (name, g) :: post
      ∧ (∀ n' g', In (n', g') pre → ∃ ipSet, GenIPSet env g' = Success ipSet)
      ∧ GenIPSet env g = Failure err.
Proof.
  induction l as [|[n g] l IH].
  - left. intros ? ? [].
  - destruct (GenIPSet env g) as [ipSet|err] eqn:Hg.
    + destruct IH as [Hall|(pre & name & g' & post & err & -> & Hpre & Hg')].
      * left. intros name g' [[= <- <-]|Hin]; eauto.
      * right. exists ((n, g) :: pre), name, g', post, err.
        split; [reflexivity|]. split; [|exact Hg'].
        intros n' g0 [[= <- <-]|Hin]; eauto.
    + right. exists [], n, g, l, err. split; [reflexivity|].
      split; [intros ? ? []|exact Hg].
Qed.

(** The names in the map the loop over the groups leaves are those that
    were there and those of the groups. *)
Lemma groups_loop_names l groups groups' :
  fst (forRange (groupLoop env) l groups) = Ok groups' →
  ∀ name,
    is_Some (groups' !! name)
    ↔ is_Some (groups !! name) ∨ In name (map fst l).
Proof.
  revert groups. induction l as [|[n g] l IH]; intros groups H name.
  - injection H as <-. simpl. tauto.
  - rewrite fst_forRange_cons, groupLoop_fst in H.
    destruct (GenIPSet env g) as [ipSet|err]; [|discriminate].
    rewrite (IH _ H name). simpl.
    destruct (decide (n = name)) as [->|Hne].
    + rewrite lookup_insert_eq. split; [auto|]. intros _. left. eauto.
    + rewrite lookup_insert_ne by exact Hne. tauto.
Qed.

(** What [NewHandler] writes, step by step. *)
Lemma NewHandler_snd filename :
  snd (NewHandler env filename)
  = match DecodeFile env filename with
    | Failure err => [Entries.readConfig filename err]
    | Success config =>
        match ReadFile env (GFWList (SetDefault config)) with
        | Failure err =>
            [Entries.readGFWList (GFWList (SetDefault config)) err]
        | Success _ =>
            match ReadFile env (CNIP (SetDefault config)) with
            | Failure err =>
                [Entries.readCNIP (CNIP (SetDefault config)) err]
            | Success _ =>
                Entries.unreadableHosts env (HostsFiles config)
                ++ match ConfCache config with
                   | None => []
                   | Some _ =>
                       snd (forRange (groupLoop env) (Groups config) ∅)
                       ++ match fst (forRange (groupLoop env)
                                       (Groups config) ∅) with
                          | Ok groups =>
                              match invalidGroups groups with
                              | Ok true => [Entries.emptyGroup]
                              | _ => []
                              end
                          | _ => []
                          end
                   end
            end
        end
    end.
Proof.
  unfold NewHandler. destruct (DecodeFile env filename) as [config|err];
    [|reflexivity].
  unfold matcher.NewABPByFile, cache.NewRamSetByFile.
  destruct (ReadFile env (GFWList (SetDefault config))) as [gfwText|err];
    [|reflexivity].
  destruct (ReadFile env (CNIP (SetDefault config))) as [cnipText|err];
    [|reflexivity].
  cbv beta iota.
  rewrite snd_bind, GenHostsReader_eq. cbn [fst snd].
  assert (Hfiles : HostsFiles (SetDefault config) = HostsFiles config)
    by (rewrite SetDefault_eq; reflexivity).
  assert (Hgroups : Groups (SetDefault config) = Groups config)
    by (rewrite SetDefault_eq; reflexivity).
  assert (Hcache : ConfCache (SetDefault config) = ConfCache config)
    by (rewrite SetDefault_eq; reflexivity).
  rewrite Hfiles. fold (Entries.unreadableHosts env (HostsFiles config)).
  f_equal.
  destruct (ConfCache config) as [section|] eqn:Hsection.
  - rewrite snd_bind, (GenCache_Some _ _ Hcache). cbv zeta.
    unfold lift at 1 2. cbn [fst snd app].
    rewrite snd_bind. cbn [Groups setConfCache]. rewrite Hgroups.
    destruct (fst (forRange (groupLoop env) (Groups config) ∅))
      as [groups|err|msg]; [|now rewrite app_nil_r|now rewrite app_nil_r].
    f_equal. rewrite snd_bind. unfold lift at 1. cbn [fst snd app].
    destruct (invalidGroups groups) as [[|]|err|msg]; reflexivity.
  - rewrite snd_bind. unfold GenCache. rewrite Hcache. reflexivity.
Qed.

End LogFacts.

(** ** More on [GenCallers] *)

Section CallerFacts.

Import conf.

Variable dialer : option proxy.Dialer.

(** What the loop over [conf.DNS] builds for one address. *)
Lemma dnsLoop_inv addr c :
  In c (dnsLoop dialer [] addr) →
  ∃ a n,
    c = outbound.DNSCaller a n dialer
    ∧ a ≠ "" ∧ GoStrings.Contains a ":" = true ∧ (n = "udp" ∨ n = "tcp").
Proof.
  unfold dnsLoop.
  assert (Hport : ∀ s, s ≠ "" →
            (if negb (GoStrings.Contains s ":") then s +:+ ":53" else s) ≠ ""
            ∧ GoStrings.Contains
                (if negb (GoStrings.Contains s ":") then s +:+ ":53" else s)
                ":" = true).
  { intros s Hs. destruct (GoStrings.Contains s ":") eqn:Hc; simpl.
    - auto.
    - split.
      + intros H. apply append_eq_nil in H as [_ H]. discriminate.
      + rewrite Contains_byte_app. apply orb_true_r. }
  destruct (GoStrings.HasSuffix addr "/tcp");
    match goal with |- context [negb (String.eqb ?a "")] =>
      destruct (String.eqb a "") eqn:He end;
    simpl; try tauto; intros [<-|[]];
    apply String.eqb_neq in He; destruct (Hport _ He);
    eexists _, _; eauto.
Qed.

(** The plain-DNS addresses that give no caller. *)
Lemma dnsLoop_nil addr :
  dnsLoop dialer [] addr = [] ↔ addr = "" ∨ addr = "/tcp".
Proof.
  split.
  - unfold dnsLoop. destruct (GoStrings.HasSuffix addr "/tcp") eqn:Hs.
    + apply HasSuffix_spec in Hs as [p ->].
      change 4%nat with (String.length "/tcp"). rewrite slice_suffix.
      destruct (String.eqb p "") eqn:Hp; simpl.
      * apply String.eqb_eq in Hp as ->. auto.
      * discriminate.
    + destruct (String.eqb addr "") eqn:Ha; simpl.
      * apply String.eqb_eq in Ha as ->. auto.
      * discriminate.
  - intros [->| ->]; reflexivity.
Qed.

Lemma dnsLoop_length addr : (length (dnsLoop dialer [] addr) ≤ 1)%nat.
Proof.
  unfold dnsLoop. destruct (GoStrings.HasSuffix addr "/tcp");
    match goal with |- context [negb (String.eqb ?a "")] =>
      destruct (negb (String.eqb a "")) end; simpl; lia.
Qed.

Lemma dotLoop_length entry : (length (dotLoop dialer [] entry) ≤ 1)%nat.
Proof.
  unfold dotLoop.
  destruct (GoStrings.Split entry "@") as [|a [|sn [|? ?]]]; simpl; try lia.
  destruct (negb (String.eqb a "") && negb (String.eqb sn "")); simpl; lia.
Qed.

Lemma dohLoop_length entry : (length (dohLoop dialer [] entry) ≤ 1)%nat.
Proof.
  unfold dohLoop. destruct (regexp.MatchString dohReg entry); simpl; lia.
Qed.

(** What the loop over [conf.DoT] builds for one entry, in terms of the
    entry's bytes. *)
Lemma dotLoop_iff entry c :
  In c (dotLoop dialer [] entry)
  ↔ ∃ up sn,
      entry = up +:+ "@" +:+ sn
      ∧ up ≠ "" ∧ sn ≠ ""
      ∧ GoStrings.Contains up "@" = false
      ∧ GoStrings.Contains sn "@" = false
      ∧ c = outbound.DoTCaller
              (if GoStrings.Contains up ":" then up else up +:+ ":853")
              sn dialer.
Proof.
  unfold dotLoop. split.
  - destruct (GoStrings.Split entry "@") as [|a [|sn [|? ?]]] eqn:Hsplit;
      simpl; try tauto.
    apply (Split_two "@"%char) in Hsplit as (-> & Ha & Hsn).
    destruct (String.eqb a "") eqn:Ea; simpl; [tauto|].
    destruct (String.eqb sn "") eqn:Es; simpl; [tauto|].
    apply String.eqb_neq in Ea, Es. intros [<-|[]].
    exists a, sn. repeat split; auto.
    destruct (GoStrings.Contains a ":"); reflexivity.
  - intros (up & sn & -> & Hup & Hsn & Hau & Has & ->).
    assert (Hsplit : GoStrings.Split (up +:+ "@" +:+ sn) "@" = [up; sn])
      by (apply (Split_two "@"%char); auto).
    rewrite Hsplit.
    apply String.eqb_neq in Hup, Hsn. rewrite Hup, Hsn. simpl. left.
    destruct (GoStrings.Contains up ":"); reflexivity.
Qed.

Lemma flat_map_length_le {A B : Type} (f : A → list B) (l : list A) :
  (∀ x, (length (f x) ≤ 1)%nat) →
  (length (flat_map f l) ≤ length l)%nat.
Proof.
  intros Hf. induction l as [|x l IH]; simpl; [lia|].
  rewrite length_app. specialize (Hf x). lia.
Qed.

End CallerFacts.

(** X1: every caller of a group carries the same dialer: a SOCKS5 dialer
    over TCP to the group's [socks5] address, forwarding directly, when
    that address is set, and no dialer at all when it is empty. *)
Theorem GenCallers_shared_dialer (g : conf.Group) :
  let d :=
    if String.eqb (conf.Socks5 g) "" then None
    else Some (proxy.SOCKS5Dialer "tcp" (conf.Socks5 g) proxy.Direct) in
  ∀ c,
    In c (conf.GenCallers g) →
    (∃ a n, c = outbound.DNSCaller a n d)
    ∨ (∃ a s, c = outbound.DoTCaller a s d)
    ∨ (∃ u, c = outbound.DoHCaller u d).
Proof.
  intros d c.
  assert (Hd : conf.GenDialer g = d).
  { unfold conf.GenDialer, d. destruct (String.eqb (conf.Socks5 g) "");
      reflexivity. }
  rewrite GenCallers_parts, Hd, !in_app_iff, !in_flat_map.
  intros [(addr & _ & H)|[(entry & _ & H)|(entry & _ & H)]].
  - apply dnsLoop_inv in H as (a & n & -> & _). left. eauto.
  - apply dotLoop_iff in H as (up & sn & _ & _ & _ & _ & _ & ->).
    right. left. eauto.
  - unfold conf.dohLoop in H.
    destruct (regexp.MatchString conf.dohReg entry); simpl in H; [|tauto].
    destruct H as [<-|[]]. right. right. eauto.
Qed.

Lemma GenCallers_shared_dialer_witness :
  (∃ a n,
     outbound.DNSCaller "8.8.8.8:53" "udp"
       (Some (proxy.SOCKS5Dialer "tcp" "127.0.0.1:1080" proxy.Direct))
     = outbound.DNSCaller a n
         (Some (proxy.SOCKS5Dialer "tcp" "127.0.0.1:1080" proxy.Direct)))
  ∨ (∃ a s,
       outbound.DNSCaller "8.8.8.8:53" "udp"
         (Some (proxy.SOCKS5Dialer "tcp" "127.0.0.1:1080" proxy.Direct))
       = outbound.DoTCaller a s
           (Some (proxy.SOCKS5Dialer "tcp" "127.0.0.1:1080" proxy.Direct)))
  ∨ (∃ u,
       outbound.DNSCaller "8.8.8.8:53" "udp"
         (Some (proxy.SOCKS5Dialer "tcp" "127.0.0.1:1080" proxy.Direct))
       = outbound.DoHCaller u
           (Some (proxy.SOCKS5Dialer "tcp" "127.0.0.1:1080" proxy.Direct))).
Proof.
  apply (GenCallers_shared_dialer Examples.dirty). vm_compute. auto.
Defined.

(** X2: the callers of a group come sorted by transport, the plain-DNS
    ones first, then the DoT ones, then the DoH ones, and no list of the
    group gives more callers than it has entries. *)
Theorem GenCallers_grouped_by_transport (g : conf.Group) :
  conf.GenCallers g
  = List.filter outbound.isPlainDNS (conf.GenCallers g)
    ++ List.filter outbound.isDoT (conf.GenCallers g)
    ++ List.filter outbound.isDoH (conf.GenCallers g)
  ∧ (length (List.filter outbound.isPlainDNS (conf.GenCallers g))
     ≤ length (conf.DNS g))%nat
  ∧ (length (List.filter outbound.isDoT (conf.GenCallers g))
     ≤ length (conf.DoT g))%nat
  ∧ (length (List.filter outbound.isDoH (conf.GenCallers g))
     ≤ length (conf.DoH g))%nat
  ∧ (length (conf.GenCallers g)
     ≤ length (conf.DNS g) + length (conf.DoT g) + length (conf.DoH g))%nat.
Proof.
  rewrite GenCallers_plain, GenCallers_tls, GenCallers_https.
  pose proof (flat_map_length_le _ (conf.DNS g)
                (dnsLoop_length (conf.GenDialer g))) as Hdns.
  pose proof (flat_map_length_le _ (conf.DoT g)
                (dotLoop_length (conf.GenDialer g))) as Hdot.
  pose proof (flat_map_length_le _ (conf.DoH g)
                (dohLoop_length (conf.GenDialer g))) as Hdoh.
  repeat split; try assumption.
  - apply GenCallers_parts.
  - rewrite GenCallers_parts, !length_app. lia.
Qed.

(** X3: a plain-DNS address gives no caller exactly when it is empty or
    is just [/tcp]; every other address gives one, so that the group has
    as many plain-DNS callers as it has such addresses. *)
Theorem GenCallers_plain_skips_only_empty (g : conf.Group) :
  (∀ addr,
     conf.dnsLoop (conf.GenDialer g) [] addr = []
     ↔ addr = "" ∨ addr = "/tcp")
  ∧ length (List.filter outbound.isPlainDNS (conf.GenCallers g))
    = length
        (List.filter
           (λ addr, negb (String.eqb addr "") && negb (String.eqb addr "/tcp"))
           (conf.DNS g)).
Proof.
  split; [apply dnsLoop_nil|].
  rewrite GenCallers_plain.
  induction (conf.DNS g) as [|addr l IH]; [reflexivity|].
  simpl. rewrite length_app, IH.
  pose proof (dnsLoop_nil (conf.GenDialer g) addr) as Hnil.
  pose proof (dnsLoop_length (conf.GenDialer g) addr) as Hlen.
  destruct (String.eqb addr "") eqn:E1; simpl.
  - apply String.eqb_eq in E1.
    rewrite (proj2 Hnil (or_introl E1)). reflexivity.
  - destruct (String.eqb addr "/tcp") eqn:E2; simpl.
    + apply String.eqb_eq in E2.
      rewrite (proj2 Hnil (or_intror E2)). reflexivity.
    + apply String.eqb_neq in E1, E2.
      destruct (conf.dnsLoop (conf.GenDialer g) [] addr) as [|c [|c' l']].
      * exfalso. destruct (proj1 Hnil eq_refl); contradiction.
      * reflexivity.
      * simpl in Hlen. lia.
Qed.

(** X4: every plain-DNS caller of a group has a non-empty address with a
    [:] in it, and its network is [udp] or [tcp]. *)
Theorem GenCallers_plain_address_has_port (g : conf.Group) a n d :
  In (outbound.DNSCaller a n d) (conf.GenCallers g) →
  a ≠ "" ∧ GoStrings.Contains a ":" = true ∧ (n = "udp" ∨ n = "tcp").
Proof.
  rewrite GenCallers_parts, !in_app_iff, !in_flat_map.
  intros [(addr & _ & H)|[(entry & _ & H)|(entry & _ & H)]].
  - apply dnsLoop_inv in H as (a' & n' & [= -> -> _] & H). exact H.
  - apply dotLoop_transport in H. discriminate.
  - apply dohLoop_transport in H. discriminate.
Qed.

Lemma GenCallers_plain_address_has_port_witness :
  "119.29.29.29:53" ≠ ""
  ∧ GoStrings.Contains "119.29.29.29:53" ":" = true
  ∧ ("tcp" = "udp" ∨ "tcp" = "tcp").
Proof.
  apply (GenCallers_plain_address_has_port Examples.clean
           "119.29.29.29:53" "tcp" None).
  vm_compute. auto.
Defined.

(** X5: a group has the DoT caller for address [a] and server name [s]
    exactly when its DoT list has an entry [up@s] with one [@] only,
    [up] and [s] non-empty, and [a] is [up], with [:853] appended when
    [up] has no [:]. *)
Theorem GenCallers_DoT_exactly_one_at (g : conf.Group) a s d :
  In (outbound.DoTCaller a s d) (conf.GenCallers g)
  ↔ d = conf.GenDialer g
    ∧ ∃ up,
        In (up +:+ "@" +:+ s) (conf.DoT g)
        ∧ up ≠ "" ∧ s ≠ ""
        ∧ GoStrings.Contains up "@" = false
        ∧ GoStrings.Contains s "@" = false
        ∧ a = (if GoStrings.Contains up ":" then up else up +:+ ":853").
Proof.
  rewrite GenCallers_parts, !in_app_iff, !in_flat_map. split.
  - intros [(addr & _ & H)|[(entry & Hin & H)|(entry & _ & H)]].
    + apply dnsLoop_transport in H. discriminate.
    + apply dotLoop_iff in H
        as (up & sn & -> & Hup & Hsn & Hau & Has & [= -> -> ->]).
      split; [reflexivity|]. exists up. auto 10.
    + apply dohLoop_transport in H. discriminate.
  - intros (-> & up & Hin & Hup & Hs & Hau & Has & ->).
    right. left. exists (up +:+ "@" +:+ s). split; [exact Hin|].
    apply dotLoop_iff. exists up, s. auto 10.
Qed.

Lemma GenCallers_DoT_exactly_one_at_witness :
  In (outbound.DoTCaller "1.0.0.1:853" "cloudflare-dns.com"
        (conf.GenDialer Examples.dirty))
     (conf.GenCallers Examples.dirty).
Proof.
  apply (GenCallers_DoT_exactly_one_at Examples.dirty).
  split; [reflexivity|]. exists "1.0.0.1:853".
  repeat split; try discriminate; try reflexivity. simpl. auto.
Defined.

(** X6: after [SetDefault] the listen address, the deny-list path and the
    CN-IP path are never empty, and [SetDefault] changes nothing exactly
    when none of the three was empty. *)
Theorem SetDefault_leaves_no_empty_path (c : conf.Conf) :
  conf.Listen (conf.SetDefault c) ≠ ""
  ∧ conf.GFWList (conf.SetDefault c) ≠ ""
  ∧ conf.CNIP (conf.SetDefault c) ≠ ""
  ∧ (conf.SetDefault c = c
     ↔ conf.Listen c ≠ "" ∧ conf.GFWList c ≠ "" ∧ conf.CNIP c ≠ "").
Proof.
  rewrite SetDefault_eq.
  destruct c as [listen gfw cnip files hosts cch groups]. simpl.
  assert (Hfill : ∀ s dflt : string,
            dflt ≠ "" → (if String.eqb s "" then dflt else s) ≠ "").
  { intros s dflt Hd. destruct (String.eqb s "") eqn:E; [exact Hd|].
    now apply String.eqb_neq. }
  assert (Hfix : ∀ s dflt : string,
            dflt ≠ "" → (if String.eqb s "" then dflt else s) = s → s ≠ "").
  { intros s dflt Hd H. rewrite <- H. now apply Hfill. }
  split; [now apply Hfill|]. split; [now apply Hfill|].
  split; [now apply Hfill|]. split.
  - intros [= Hl Hg Hc]. repeat split; eapply Hfix; eauto; discriminate.
  - intros (Hl & Hg & Hc). apply String.eqb_neq in Hl, Hg, Hc.
    now rewrite Hl, Hg, Hc.
Qed.

(** X7: [GenCache] panics, on the nil pointer it reads the size through,
    exactly when the configuration has no [cache] section; with a section
    it returns a cache; it never returns an error. *)
Theorem GenCache_panics_iff_no_section (c : conf.Conf) :
  (conf.GenCache c = Panic nilDereference ↔ conf.ConfCache c = None)
  ∧ ((∃ c' dnsCache, conf.GenCache c = Ok (c', dnsCache))
     ↔ ∃ section, conf.ConfCache c = Some section)
  ∧ ∀ err, conf.GenCache c ≠ Error err.
Proof.
  destruct (conf.ConfCache c) as [section|] eqn:Hsection.
  - pose proof (GenCache_Some c section Hsection) as H. cbv zeta in H.
    rewrite H. split; [split; discriminate|].
    split; [split; eauto|discriminate].
  - unfold conf.GenCache. rewrite Hsection.
    split; [split; reflexivity|].
    split; [split; [intros (? & ? & [=]) | intros [? [=]]]|discriminate].
Qed.

(** X8: the configuration [GenCache] leaves behind differs from the one
    it was given in the [cache] section only, which then holds no zero;
    the cache has the size the section holds, never zero; and running
    [GenCache] again on that configuration changes nothing and builds the
    same cache. *)
Theorem GenCache_settles (c c' : conf.Conf) (dnsCache : cache.DNSCache)
    (Hgen : conf.GenCache c = Ok (c', dnsCache)) :
  conf.GenCache c' = Ok (c', dnsCache)
  ∧ conf.Listen c' = conf.Listen c
  ∧ conf.GFWList c' = conf.GFWList c
  ∧ conf.CNIP c' = conf.CNIP c
  ∧ conf.HostsFiles c' = conf.HostsFiles c
  ∧ conf.Hosts c' = conf.Hosts c
  ∧ conf.Groups c' = conf.Groups c
  ∧ ∃ section,
      conf.ConfCache c' = Some section
      ∧ conf.Size section ≠ 0
      ∧ conf.MinTTL section ≠ 0
      ∧ conf.MaxTTL section ≠ 0
      ∧ cache.size dnsCache = conf.Size section.
Proof.
  destruct (conf.ConfCache c) as [section|] eqn:Hsection.
  2: { unfold conf.GenCache in Hgen. rewrite Hsection in Hgen.
       discriminate. }
  rewrite (GenCache_Some c section Hsection) in Hgen. cbv zeta in Hgen.
  injection Hgen as <- <-.
  set (section' := {| conf.Size := _; conf.MinTTL := _; conf.MaxTTL := _ |}).
  assert (Hsize : conf.Size section' ≠ 0).
  { simpl. destruct (conf.Size section =? 0) eqn:E; [lia|].
    now apply Z.eqb_neq. }
  assert (Hmin : conf.MinTTL section' ≠ 0).
  { simpl. destruct (conf.MinTTL section =? 0) eqn:E; [lia|].
    now apply Z.eqb_neq. }
  assert (Hmax : conf.MaxTTL section' ≠ 0).
  { simpl. destruct (conf.MaxTTL section =? 0) eqn:E; [lia|].
    now apply Z.eqb_neq. }
  split.
  - rewrite (GenCache_Some (conf.setConfCache (Some section') c) section'
               eq_refl).
    cbv zeta.
    apply Z.eqb_neq in Hsize, Hmin, Hmax. rewrite Hsize, Hmin, Hmax.
    reflexivity.
  - repeat (split; [reflexivity|]). exists section'. auto.
Qed.

Lemma GenCache_settles_witness :
  ∃ c' dnsCache,
    conf.GenCache Examples.sizeZero = Ok (c', dnsCache)
    ∧ conf.GenCache c' = Ok (c', dnsCache).
Proof.
  eexists _, _. split; [reflexivity|].
  apply (GenCache_settles Examples.sizeZero). reflexivity.
Defined.

(** X9: [GenHostsReader] accounts for every hosts file once: each file
    gives either a reader or a warning, so that readers and warnings
    together are as many as the files, plus one reader when there are
    inline hosts records; and it writes nothing but warnings. *)
Theorem GenHostsReader_accounts_for_every_file (env : conf.Env)
    (c : conf.Conf) :
  ∃ readers,
    conf.GenHostsReader env c
    = (Ok readers, Entries.unreadableHosts env (conf.HostsFiles c))
    ∧ (length readers
       + length (Entries.unreadableHosts env (conf.HostsFiles c))
       = (match conf.Hosts c with [] => 0 | _ :: _ => 1 end)
         + length (conf.HostsFiles c))%nat
    ∧ Forall (λ e, log.level e = log.WarnLevel)
        (Entries.unreadableHosts env (conf.HostsFiles c)).
Proof.
  rewrite GenHostsReader_eq. eexists. split; [reflexivity|]. split.
  - rewrite length_app. unfold Entries.unreadableHosts.
    assert (Hfiles : ∀ files,
              (length (omap (λ f, match conf.ReadFile env f with
                                  | Success content =>
                                      Some (hosts.FileReader f content 0)
                                  | Failure _ => None
                                  end) files)
               + length (omap (λ f, match conf.ReadFile env f with
                                    | Success _ => None
                                    | Failure err =>
                                        Some (Entries.readHosts f err)
                                    end) files)
               = length files)%nat).
    { induction files as [|f files IH]; [reflexivity|]. cbn.
      destruct (conf.ReadFile env f); cbn in *; lia. }
    specialize (Hfiles (conf.HostsFiles c)).
    destruct (conf.Hosts c); simpl; lia.
  - unfold Entries.unreadableHosts.
    induction (conf.HostsFiles c) as [|f files IH]; simpl; [constructor|].
    destruct (conf.ReadFile env f); [exact IH | constructor; auto].
Qed.

(** ** More on [NewHandler] *)

Section OutcomeFacts.

Import conf.

Variable env : Env.

(** How the loop over the groups ends. *)
Lemma groups_loop_cases (l : list (string * Group)) groups :
  ((∀ name g, In (name, g) l → ∃ ipSet, GenIPSet env g = Success ipSet)
   ∧ ∃ groups',
       forRange (groupLoop env) l groups
       = (Ok groups', Entries.concurrentGroups l))
  ∨ ∃ pre name g post err,
      l = pre ++ (name, g) :: post
      ∧ (∀ n' g', In (n', g') pre → ∃ ipSet, GenIPSet env g' = Success ipSet)
      ∧ GenIPSet env g = Failure err
      ∧ forRange (groupLoop env) l groups
        = (Error err,
           Entries.concurrentGroups (pre ++ [(name, g)])
           ++ [Entries.createIPSet err]).
Proof.
  destruct (first_ipset_failure env l)
    as [Hall|(pre & name & g & post & err & -> & Hpre & Hg)].
  - left. split; [exact Hall|].
    destruct (groups_loop_through env l groups Hall) as (groups' & Hf & Hs).
    exists groups'. now apply injective_projections.
  - right. exists pre, name, g, post, err. repeat split; auto.
    now apply groups_loop_stops.
Qed.

(** The validity test returns no error of its own. *)
Lemma invalidGroups_cases groups :
  invalidGroups groups = Ok true
  ∨ invalidGroups groups = Ok false
  ∨ invalidGroups groups = Panic nilDereference.
Proof.
  unfold invalidGroups. destruct (size groups <=? 0)%nat; [auto|].
  destruct (groups !! "clean") as [clean|]; [|auto].
  destruct (length (inbound.Callers clean) <=? 0)%nat; [auto|].
  destruct (groups !! "dirty") as [dirty|]; [|auto].
  destruct (length (inbound.Callers dirty) <=? 0)%nat; auto.
Qed.

Lemma unreadableHosts_warnings files :
  Forall (λ e, log.level e = log.WarnLevel)
    (Entries.unreadableHosts env files).
Proof.
  unfold Entries.unreadableHosts.
  induction files as [|f files IH]; cbn; [constructor|].
  destruct (ReadFile env f); [exact IH | constructor; auto].
Qed.

Lemma concurrentGroups_warnings (l : list (string * Group)) :
  Forall (λ e, log.level e = log.WarnLevel) (Entries.concurrentGroups l).
Proof.
  unfold Entries.concurrentGroups.
  induction l as [|[n g] l IH]; simpl; [constructor|].
  destruct (Concurrent g); simpl; [constructor; auto | exact IH].
Qed.

(** [SetDefault] and the paths it fills in. *)
Lemma SetDefault_GFWList (c : Conf) :
  GFWList (SetDefault c)
  = if String.eqb (GFWList c) "" then "gfwlist.txt" else GFWList c.
Proof. rewrite SetDefault_eq. reflexivity. Qed.

Lemma SetDefault_CNIP (c : Conf) :
  CNIP (SetDefault c) = if String.eqb (CNIP c) "" then "cnip.txt" else CNIP c.
Proof. rewrite SetDefault_eq. reflexivity. Qed.

Lemma SetDefault_ConfCache (c : Conf) :
  ConfCache (SetDefault c) = ConfCache c.
Proof. rewrite SetDefault_eq. reflexivity. Qed.

(** [NewHandler] once the configuration, the deny-list and the CN-IP list
    are read and the cache is built. *)
Lemma NewHandler_late filename config gfwText cnipText section :
  DecodeFile env filename = Success config →
  ReadFile env (GFWList (SetDefault config)) = Success gfwText →
  ReadFile env (CNIP (SetDefault config)) = Success cnipText →
  ConfCache config = Some section →
  ∃ cnip dnsCache,
    NewHandler env filename
    = (match fst (forRange (groupLoop env) (Groups config) ∅) with
       | Error err => Error err
       | Panic msg => Panic msg
       | Ok groups =>
           match invalidGroups groups with
           | Error err => Error err
           | Panic msg => Panic msg
           | Ok true => Error emptyGroupError
           | Ok false =>
               Ok {| inbound.Listen := Listen (SetDefault config);
                     inbound.GFWMatcher := matcher.NewABPByText gfwText;
                     inbound.CNIP := cnip;
                     inbound.HostsReaders :=
                       match fst (GenHostsReader env (SetDefault config)) with
                       | Ok readers => readers
                       | _ => []
                       end;
                     inbound.Cache := dnsCache;
                     inbound.Groups := groups |}
           end
       end,
       Entries.unreadableHosts env (HostsFiles config)
       ++ snd (forRange (groupLoop env) (Groups config) ∅)
       ++ match fst (forRange (groupLoop env) (Groups config) ∅) with
          | Ok groups =>
              match invalidGroups groups with
              | Ok true => [Entries.emptyGroup]
              | _ => []
              end
          | _ => []
          end)
    ∧ cache.NewRamSetByFile (ReadFile env) (CNIP (SetDefault config))
      = Success cnip
    ∧ ∃ config', GenCache (SetDefault config) = Ok (config', dnsCache).
Proof.
  intros Hdecode Hgfw Hcnip Hsection.
  assert (Hsec : ConfCache (SetDefault config) = Some section)
    by (now rewrite SetDefault_ConfCache).
  pose proof (GenCache_Some _ _ Hsec) as Hgen. cbv zeta in Hgen.
  eexists _, _. split; [|split; [|eexists; exact Hgen]].
  - apply injective_projections.
    + rewrite NewHandler_fst, Hdecode, Hgfw.
      unfold cache.NewRamSetByFile. rewrite Hcnip, Hgen. reflexivity.
    + rewrite NewHandler_snd, Hdecode, Hgfw, Hcnip, Hsection. reflexivity.
  - unfold cache.NewRamSetByFile. rewrite Hcnip. reflexivity.
Qed.

End OutcomeFacts.

(** When the configuration file cannot be decoded, the decoder's error is
    returned and one error line written. *)
Lemma NewHandler_decode_failure_eq (env : conf.Env) filename err :
  conf.DecodeFile env filename = Failure err →
  conf.NewHandler env filename
  = (Error err, [Entries.readConfig filename err]).
Proof. intros H. unfold conf.NewHandler. rewrite H. reflexivity. Qed.

(** X10: when the deny-list cannot be read, at the configured path or at
    [gfwlist.txt] when none is configured, [NewHandler] returns the
    reader's error and writes one error line with that path, whatever the
    rest of the configuration. *)
Theorem NewHandler_deny_list_failure (env : conf.Env) (filename : string)
    (config : conf.Conf) (err : error)
    (Hdecode : conf.DecodeFile env filename = Success config)
    (Hgfw : conf.ReadFile env
              (if String.eqb (conf.GFWList config) "" then "gfwlist.txt"
               else conf.GFWList config)
            = Failure err) :
  conf.NewHandler env filename
  = (Error err,
     [Entries.readGFWList
        (if String.eqb (conf.GFWList config) "" then "gfwlist.txt"
         else conf.GFWList config)
        err]).
Proof.
  rewrite <- SetDefault_GFWList in *.
  apply injective_projections.
  - rewrite NewHandler_fst, Hdecode, Hgfw. reflexivity.
  - rewrite NewHandler_snd, Hdecode, Hgfw. reflexivity.
Qed.

Lemma NewHandler_deny_list_failure_witness :
  conf.NewHandler (Examples.envNoFiles Cases.bare) "ts-dns.toml"
  = (Error "open gfwlist.txt: no such file or directory",
     [Entries.readGFWList "gfwlist.txt"
        "open gfwlist.txt: no such file or directory"]).
Proof.
  apply (NewHandler_deny_list_failure (Examples.envNoFiles Cases.bare)
           "ts-dns.toml" Cases.bare);
    reflexivity.
Defined.

(** X11: when the deny-list is read and the CN-IP list cannot be, at the
    configured path or at [cnip.txt] when none is configured,
    [NewHandler] returns the reader's error and writes one error line
    with that path. *)
Theorem NewHandler_cnip_failure (env : conf.Env) (filename : string)
    (config : conf.Conf) (gfwText : string) (err : error)
    (Hdecode : conf.DecodeFile env filename = Success config)
    (Hgfw : conf.ReadFile env
              (if String.eqb (conf.GFWList config) "" then "gfwlist.txt"
               else conf.GFWList config)
            = Success gfwText)
    (Hcnip : conf.ReadFile env
               (if String.eqb (conf.CNIP config) "" then "cnip.txt"
                else conf.CNIP config)
             = Failure err) :
  conf.NewHandler env filename
  = (Error err,
     [Entries.readCNIP
        (if String.eqb (conf.CNIP config) "" then "cnip.txt"
         else conf.CNIP config)
        err]).
Proof.
  rewrite <- SetDefault_GFWList in *. rewrite <- SetDefault_CNIP in *.
  apply injective_projections.
  - rewrite NewHandler_fst, Hdecode, Hgfw.
    unfold cache.NewRamSetByFile. rewrite Hcnip. reflexivity.
  - rewrite NewHandler_snd, Hdecode, Hgfw, Hcnip. reflexivity.
Qed.

Lemma NewHandler_cnip_failure_witness :
  conf.NewHandler (Cases.envNoCNIP Cases.bare) "ts-dns.toml"
  = (Error "open cnip.txt: no such file or directory",
     [Entries.readCNIP "cnip.txt" "open cnip.txt: no such file or directory"]).
Proof.
  eapply (NewHandler_cnip_failure (Cases.envNoCNIP Cases.bare)
            "ts-dns.toml" Cases.bare);
    reflexivity.
Defined.

(** X12: for a configuration without a [cache] section, once the
    deny-list and the CN-IP list are read, [NewHandler] panics on the nil
    pointer in [GenCache], having written the warnings for the hosts
    files that cannot be read and nothing else. *)
Theorem NewHandler_no_cache_section_panics (env : conf.Env)
    (filename : string) (config : conf.Conf) (gfwText cnipText : string)
    (Hdecode : conf.DecodeFile env filename = Success config)
    (Hgfw : conf.ReadFile env (conf.GFWList (conf.SetDefault config))
            = Success gfwText)
    (Hcnip : conf.ReadFile env (conf.CNIP (conf.SetDefault config))
             = Success cnipText)
    (Hsection : conf.ConfCache config = None) :
  conf.NewHandler env filename
  = (Panic nilDereference,
     Entries.unreadableHosts env (conf.HostsFiles config)).
Proof.
  apply injective_projections.
  - rewrite NewHandler_fst, Hdecode, Hgfw.
    unfold cache.NewRamSetByFile, conf.GenCache.
    rewrite Hcnip, SetDefault_ConfCache, Hsection. reflexivity.
  - rewrite NewHandler_snd, Hdecode, Hgfw, Hcnip, Hsection.
    apply app_nil_r.
Qed.

Lemma NewHandler_no_cache_section_panics_witness :
  conf.NewHandler (Examples.env Cases.noCache) "ts-dns.toml"
  = (Panic nilDereference,
     Entries.unreadableHosts (Examples.env Cases.noCache) ["/etc/hosts"]).
Proof.
  eapply (NewHandler_no_cache_section_panics (Examples.env Cases.noCache)
            "ts-dns.toml" Cases.noCache);
    reflexivity.
Defined.

(** X13: when the configuration, the deny-list and the CN-IP list are
    read and there is a [cache] section, the first group, in the order the
    groups are ranged over, whose IP set cannot be made ends [NewHandler]
    with the error of [ipset.New]; the log then holds the hosts warnings,
    the warnings for the concurrent groups up to that one, and one error
    line.  The groups after it are not looked at, nor are [clean] and
    [dirty] checked. *)
Theorem NewHandler_ipset_failure (env : conf.Env) (filename : string)
    (config : conf.Conf) (gfwText cnipText : string) (section : conf.Cache)
    (pre post : list (string * conf.Group)) (name : string)
    (g : conf.Group) (err : error)
    (Hdecode : conf.DecodeFile env filename = Success config)
    (Hgfw : conf.ReadFile env (conf.GFWList (conf.SetDefault config))
            = Success gfwText)
    (Hcnip : conf.ReadFile env (conf.CNIP (conf.SetDefault config))
             = Success cnipText)
    (Hsection : conf.ConfCache config = Some section)
    (Hgroups : conf.Groups config = pre ++ (name, g) :: post)
    (Hpre : ∀ n' g',
        In (n', g') pre → ∃ ipSet, conf.GenIPSet env g' = Success ipSet)
    (Hfail : conf.GenIPSet env g = Failure err) :
  conf.NewHandler env filename
  = (Error err,
     Entries.unreadableHosts env (conf.HostsFiles config)
     ++ Entries.concurrentGroups (pre ++ [(name, g)])
     ++ [Entries.createIPSet err]).
Proof.
  destruct (NewHandler_late env _ _ _ _ _ Hdecode Hgfw Hcnip Hsection)
    as (cnip & dnsCache & -> & _).
  rewrite Hgroups, (groups_loop_stops env pre name g post err ∅ Hpre Hfail).
  cbn [fst snd]. now rewrite app_nil_r.
Qed.

Lemma NewHandler_ipset_failure_witness :
  conf.NewHandler (Cases.envNoKernel Examples.full) "ts-dns.toml"
  = (Error "operation not permitted",
     Entries.unreadableHosts (Cases.envNoKernel Examples.full) ["/etc/hosts"]
     ++ Entries.concurrentGroups
          ([("clean", Examples.clean)] ++ [("dirty", Examples.dirty)])
     ++ [Entries.createIPSet "operation not permitted"]).
Proof.
  eapply (NewHandler_ipset_failure (Cases.envNoKernel Examples.full)
            "ts-dns.toml" Examples.full _ _ _
            [("clean", Examples.clean)] [("work", Examples.work)]
            "dirty" Examples.dirty);
    try reflexivity.
  intros n' g' [[= <- <-]|[]]. eexists. reflexivity.
Defined.

(** X14: a configuration without any group, once everything before the
    groups went well, is turned down with the error for empty mandatory
    groups, and not by a panic. *)
Theorem NewHandler_no_group_at_all (env : conf.Env) (filename : string)
    (config : conf.Conf) (gfwText cnipText : string) (section : conf.Cache)
    (Hdecode : conf.DecodeFile env filename = Success config)
    (Hgfw : conf.ReadFile env (conf.GFWList (conf.SetDefault config))
            = Success gfwText)
    (Hcnip : conf.ReadFile env (conf.CNIP (conf.SetDefault config))
             = Success cnipText)
    (Hsection : conf.ConfCache config = Some section)
    (Hgroups : conf.Groups config = []) :
  conf.NewHandler env filename
  = (Error conf.emptyGroupError,
     Entries.unreadableHosts env (conf.HostsFiles config)
     ++ [Entries.emptyGroup]).
Proof.
  destruct (NewHandler_late env _ _ _ _ _ Hdecode Hgfw Hcnip Hsection)
    as (cnip & dnsCache & -> & _).
  rewrite Hgroups. reflexivity.
Qed.

Lemma NewHandler_no_group_at_all_witness :
  conf.NewHandler (Examples.env Cases.noGroups) "ts-dns.toml"
  = (Error conf.emptyGroupError,
     Entries.unreadableHosts (Examples.env Cases.noGroups) ["/etc/hosts"]
     ++ [Entries.emptyGroup]).
Proof.
  eapply (NewHandler_no_group_at_all (Examples.env Cases.noGroups)
            "ts-dns.toml" Cases.noGroups);
    reflexivity.
Defined.

(** X15: for a configuration with at least one group, once everything
    before the validity test went well, [NewHandler] panics on a nil
    pointer when there is no group [clean], and also when [clean] has a
    caller and there is no group [dirty]. *)
Theorem NewHandler_absent_mandatory_group_panics (env : conf.Env)
    (filename : string) (config : conf.Conf) (gfwText cnipText : string)
    (section : conf.Cache)
    (Hdecode : conf.DecodeFile env filename = Success config)
    (Hgfw : conf.ReadFile env (conf.GFWList (conf.SetDefault config))
            = Success gfwText)
    (Hcnip : conf.ReadFile env (conf.CNIP (conf.SetDefault config))
             = Success cnipText)
    (Hsection : conf.ConfCache config = Some section)
    (Hipset : ∀ name g,
        In (name, g) (conf.Groups config) →
        ∃ ipSet, conf.GenIPSet env g = Success ipSet)
    (Hnames : NoDup (map fst (conf.Groups config)))
    (Hsome : conf.Groups config ≠ [])
    (Habsent :
       ¬ In "clean" (map fst (conf.Groups config))
       ∨ ((∃ g, In ("clean", g) (conf.Groups config)
                ∧ conf.GenCallers g ≠ [])
          ∧ ¬ In "dirty" (map fst (conf.Groups config)))) :
  fst (conf.NewHandler env filename) = Panic nilDereference.
Proof.
  destruct (NewHandler_late env _ _ _ _ _ Hdecode Hgfw Hcnip Hsection)
    as (cnip & dnsCache & -> & _).
  destruct (groups_loop_ok env (conf.Groups config) ∅ Hipset Hnames)
    as (groups & Hloop & Hin & Hout).
  cbn [fst]. rewrite Hloop.
  assert (Hsize : (size groups <=? 0)%nat = false).
  { destruct (conf.Groups config) as [|[n g] l] eqn:Hl; [congruence|].
    destruct (Hin n g (or_introl eq_refl)) as (s & _ & Hn).
    destruct (size groups) eqn:Hsz; [|reflexivity].
    apply map_size_empty_iff in Hsz. subst groups.
    rewrite lookup_empty in Hn. discriminate. }
  unfold conf.invalidGroups. rewrite Hsize.
  destruct Habsent as [Hclean|[(g & Hg & Hcallers) Hdirty]].
  - rewrite (Hout _ Hclean), lookup_empty. reflexivity.
  - destruct (Hin _ _ Hg) as (s & _ & ->). simpl.
    destruct (conf.GenCallers g); [congruence|]. simpl.
    rewrite (Hout _ Hdirty), lookup_empty. reflexivity.
Qed.

Lemma NewHandler_absent_mandatory_group_panics_witness :
  fst (conf.NewHandler (Examples.env Cases.noClean) "ts-dns.toml")
  = Panic nilDereference.
Proof.
  eapply (NewHandler_absent_mandatory_group_panics
            (Examples.env Cases.noClean) "ts-dns.toml" Cases.noClean);
    try reflexivity.
  - intros name g [[= <- <-]|[]]. eexists. reflexivity.
  - simpl. apply NoDup_cons_2; [|apply NoDup_nil_2].
    rewrite list_elem_of_In. simpl. tauto.
  - discriminate.
  - left. simpl. intros [H|[]]. discriminate H.
Defined.

(** X16: when both mandatory groups are looked at and one of them has no
    caller ([clean] has none, or [clean] has one and [dirty] has none),
    [NewHandler] returns the error for empty mandatory groups, after the
    hosts warnings and the warnings for all concurrent groups, and writes
    that error as the last line. *)
Theorem NewHandler_mandatory_group_without_callers (env : conf.Env)
    (filename : string) (config : conf.Conf) (gfwText cnipText : string)
    (section : conf.Cache)
    (Hdecode : conf.DecodeFile env filename = Success config)
    (Hgfw : conf.ReadFile env (conf.GFWList (conf.SetDefault config))
            = Success gfwText)
    (Hcnip : conf.ReadFile env (conf.CNIP (conf.SetDefault config))
             = Success cnipText)
    (Hsection : conf.ConfCache config = Some section)
    (Hipset : ∀ name g,
        In (name, g) (conf.Groups config) →
        ∃ ipSet, conf.GenIPSet env g = Success ipSet)
    (Hnames : NoDup (map fst (conf.Groups config)))
    (Hempty :
       (∃ g, In ("clean", g) (conf.Groups config) ∧ conf.GenCallers g = [])
       ∨ ∃ gc gd,
           In ("clean", gc) (conf.Groups config)
           ∧ conf.GenCallers gc ≠ []
           ∧ In ("dirty", gd) (conf.Groups config)
           ∧ conf.GenCallers gd = []) :
  conf.NewHandler env filename
  = (Error conf.emptyGroupError,
     Entries.unreadableHosts env (conf.HostsFiles config)
     ++ Entries.concurrentGroups (conf.Groups config)
     ++ [Entries.emptyGroup]).
Proof.
  destruct (NewHandler_late env _ _ _ _ _ Hdecode Hgfw Hcnip Hsection)
    as (cnip & dnsCache & -> & _).
  destruct (groups_loop_ok env (conf.Groups config) ∅ Hipset Hnames)
    as (groups & Hloop & Hin & _).
  destruct (groups_loop_through env (conf.Groups config) ∅ Hipset)
    as (groups' & Hloop' & Hlog).
  rewrite Hloop, Hlog.
  assert (Hinvalid : conf.invalidGroups groups = Ok true).
  { unfold conf.invalidGroups.
    destruct (size groups <=? 0)%nat; [reflexivity|].
    destruct Hempty as [(g & Hg & He)|(gc & gd & Hgc & Hc & Hgd & He)].
    - destruct (Hin _ _ Hg) as (s & _ & ->). simpl. now rewrite He.
    - destruct (Hin _ _ Hgc) as (sc & _ & ->). simpl.
      destruct (conf.GenCallers gc); [congruence|]. simpl.
      destruct (Hin _ _ Hgd) as (sd & _ & ->). simpl. now rewrite He. }
  rewrite Hinvalid. reflexivity.
Qed.

Lemma NewHandler_mandatory_group_without_callers_witness :
  conf.NewHandler (Examples.env Cases.dirtyIdle) "ts-dns.toml"
  = (Error conf.emptyGroupError,
     Entries.unreadableHosts (Examples.env Cases.dirtyIdle) ["/etc/hosts"]
     ++ Entries.concurrentGroups
          [("clean", Examples.clean); ("dirty", Examples.idle)]
     ++ [Entries.emptyGroup]).
Proof.
  eapply (NewHandler_mandatory_group_without_callers
            (Examples.env Cases.dirtyIdle) "ts-dns.toml" Cases.dirtyIdle);
    try reflexivity.
  - intros name g [[= <- <-]|[[= <- <-]|[]]]; eexists; reflexivity.
  - simpl. repeat (apply NoDup_cons_2;
                   [rewrite list_elem_of_In; simpl; intuition discriminate|]).
    apply NoDup_nil_2.
  - right. exists Examples.clean, Examples.idle. simpl.
    split; [auto|]. split; [vm_compute; discriminate|].
    split; [auto | reflexivity].
Defined.

Section HandlerFacts.

Import conf.

Variable env : Env.

(** A loop over the groups that ends well made every IP set. *)
Lemma groups_loop_all_made (l : list (string * Group)) groups groups' :
  fst (forRange (groupLoop env) l groups) = Ok groups' →
  ∀ name g, In (name, g) l → ∃ ipSet, GenIPSet env g = Success ipSet.
Proof.
  intros Hok.
  destruct (groups_loop_cases env l groups)
    as [[Hall _]|(pre & name & g & post & err & _ & _ & _ & Hrun)].
  - exact Hall.
  - rewrite Hrun in Hok. discriminate.
Qed.

(** A group that names no IP set gets none, and only such a group. *)
Lemma GenIPSet_None g :
  GenIPSet env g = Success None ↔ IPSet g = "".
Proof.
  unfold GenIPSet. destruct (String.eqb (IPSet g) "") eqn:E; simpl.
  - apply String.eqb_eq in E. tauto.
  - apply String.eqb_neq in E.
    destruct (ipsetNew env (IPSet g) "hash:ip" _); split;
      try discriminate; contradiction.
Qed.

(** The hosts readers do not depend on the defaults [SetDefault] fills
    in. *)
Lemma GenHostsReader_SetDefault (c : Conf) :
  GenHostsReader env (SetDefault c) = GenHostsReader env c.
Proof. rewrite !GenHostsReader_eq, SetDefault_eq. reflexivity. Qed.

(** What a returned handler is made of. *)
Lemma NewHandler_Ok_inv filename h :
  fst (NewHandler env filename) = Ok h →
  ∃ config gfwText cnipText section config' groups,
    DecodeFile env filename = Success config
    ∧ ReadFile env (GFWList (SetDefault config)) = Success gfwText
    ∧ ReadFile env (CNIP (SetDefault config)) = Success cnipText
    ∧ ConfCache config = Some section
    ∧ GenCache (SetDefault config) = Ok (config', inbound.Cache h)
    ∧ fst (forRange (groupLoop env) (Groups config) ∅) = Ok groups
    ∧ invalidGroups groups = Ok false
    ∧ inbound.Groups h = groups
    ∧ inbound.Listen h = Listen (SetDefault config)
    ∧ fst (GenHostsReader env config) = Ok (inbound.HostsReaders h).
Proof.
  rewrite NewHandler_fst. intros Hok.
  destruct (DecodeFile env filename) as [config|]; [|discriminate].
  destruct (ReadFile env (GFWList _)) as [gfwText|] eqn:Hgfw; [|discriminate].
  unfold cache.NewRamSetByFile in Hok.
  destruct (ReadFile env (CNIP _)) as [cnipText|] eqn:Hcnip; [|discriminate].
  destruct (GenCache _) as [[config' dnsCache]| |] eqn:Hgen; try discriminate.
  destruct (fst (forRange _ _ _)) as [groups| |] eqn:Hloop; try discriminate.
  destruct (invalidGroups groups) as [[|]| |] eqn:Hvalid; try discriminate.
  injection Hok as <-. cbn [inbound.Cache inbound.Groups inbound.Listen
                            inbound.HostsReaders].
  destruct (ConfCache config) as [section|] eqn:Hsection.
  2: { unfold GenCache in Hgen.
       rewrite SetDefault_ConfCache, Hsection in Hgen. discriminate. }
  exists config, gfwText, cnipText, section, config', groups.
  repeat split; auto.
  rewrite GenHostsReader_SetDefault, GenHostsReader_eq. reflexivity.
Qed.

End HandlerFacts.

(** X17: [NewHandler] returns a handler only if the configuration was
    decoded, the deny-list and the CN-IP list were read, the configuration
    has a [cache] section, the IP set of every group could be made, and
    the groups [clean] and [dirty] are both configured with at least one
    caller each. *)
Theorem NewHandler_success_requirements (env : conf.Env)
    (filename : string) (h : inbound.Handler)
    (Hok : fst (conf.NewHandler env filename) = Ok h) :
  ∃ config gfwText cnipText section,
    conf.DecodeFile env filename = Success config
    ∧ conf.ReadFile env (conf.GFWList (conf.SetDefault config))
      = Success gfwText
    ∧ conf.ReadFile env (conf.CNIP (conf.SetDefault config))
      = Success cnipText
    ∧ conf.ConfCache config = Some section
    ∧ (∀ name g,
         In (name, g) (conf.Groups config) →
         ∃ ipSet, conf.GenIPSet env g = Success ipSet)
    ∧ (∃ g, In ("clean", g) (conf.Groups config) ∧ conf.GenCallers g ≠ [])
    ∧ (∃ g, In ("dirty", g) (conf.Groups config) ∧ conf.GenCallers g ≠ []).
Proof.
  destruct (NewHandler_Ok_inv env _ _ Hok)
    as (config & gfwText & cnipText & section & config' & groups
        & Hdecode & Hgfw & Hcnip & Hsection & _ & Hloop & _ & Hgroups & _).
  exists config, gfwText, cnipText, section.
  repeat (split; [assumption|]).
  split; [exact (groups_loop_all_made env _ _ _ Hloop)|].
  destruct (NewHandler_handler_has_mandatory_groups _ _ _ Hok)
    as (clean & dirty & Hclean & Hcc & Hdirty & Hdc).
  rewrite Hgroups in Hclean, Hdirty.
  destruct (groups_loop_inv env _ _ _ Hloop _ _ Hclean)
    as [Hc|(gc & sc & Hinc & _ & ->)];
    [rewrite lookup_empty in Hc; discriminate|].
  destruct (groups_loop_inv env _ _ _ Hloop _ _ Hdirty)
    as [Hd|(gd & sd & Hind & _ & ->)];
    [rewrite lookup_empty in Hd; discriminate|].
  split; eauto.
Qed.

Lemma NewHandler_success_requirements_witness :
  ∃ h,
    fst (conf.NewHandler (Examples.env Examples.full) "ts-dns.toml") = Ok h
    ∧ ∃ g, In ("dirty", g) (conf.Groups Examples.full)
           ∧ conf.GenCallers g ≠ [].
Proof.
  eexists. split; [vm_compute; reflexivity|].
  destruct (NewHandler_success_requirements
              (Examples.env Examples.full) "ts-dns.toml" _
              ltac:(vm_compute; reflexivity))
    as (config & _ & _ & _ & Hdecode & _ & _ & _ & _ & _ & Hdirty).
  injection Hdecode as <-. exact Hdirty.
Defined.

(** X18: the group map of a returned handler has exactly the names of the
    configured groups; and, a name standing for one group, each
    configured group is in the map under its name with the callers
    generated for it, its concurrency flag, and the IP set made for it,
    which is nil exactly when the group names none. *)
Theorem NewHandler_groups_of_handler (env : conf.Env) (filename : string)
    (config : conf.Conf) (h : inbound.Handler)
    (Hok : fst (conf.NewHandler env filename) = Ok h)
    (Hdecode : conf.DecodeFile env filename = Success config) :
  (∀ name,
     is_Some (inbound.Groups h !! name)
     ↔ In name (map fst (conf.Groups config)))
  ∧ (NoDup (map fst (conf.Groups config)) →
     ∀ name g,
       In (name, g) (conf.Groups config) →
       ∃ hg,
         inbound.Groups h !! name = Some hg
         ∧ inbound.Callers hg = conf.GenCallers g
         ∧ inbound.Concurrent hg = conf.Concurrent g
         ∧ conf.GenIPSet env g = Success (inbound.IPSet hg)
         ∧ (inbound.IPSet hg = None ↔ conf.IPSet g = "")).
Proof.
  destruct (NewHandler_Ok_inv env _ _ Hok)
    as (config0 & gfwText & cnipText & section & config' & groups
        & Hdecode0 & _ & _ & _ & _ & Hloop & _ & Hgroups & _).
  rewrite Hdecode in Hdecode0. injection Hdecode0 as <-.
  rewrite Hgroups. split.
  - intros name. rewrite (groups_loop_names env _ _ _ Hloop name).
    rewrite lookup_empty. split; [intros [[? [=]]|H]; exact H | auto].
  - intros Hnames name g Hin.
    destruct (groups_loop_ok env _ ∅ (groups_loop_all_made env _ _ _ Hloop)
                Hnames) as (groups0 & Hloop0 & Hall & _).
    rewrite Hloop in Hloop0. injection Hloop0 as <-.
    destruct (Hall _ _ Hin) as (ipSet & Hmade & Hlookup).
    exists (conf.handlerGroup g ipSet). simpl.
    repeat split; auto.
    + intros ->. now apply (GenIPSet_None env).
    + intros Hname. apply (GenIPSet_None env) in Hname.
      rewrite Hmade in Hname. now injection Hname.
Qed.

Lemma NewHandler_groups_of_handler_witness :
  ∃ h,
    fst (conf.NewHandler (Examples.env Examples.withIdle) "ts-dns.toml")
    = Ok h
    ∧ ∀ name,
        is_Some (inbound.Groups h !! name)
        ↔ In name ["clean"; "dirty"; "idle"].
Proof.
  eexists. split; [vm_compute; reflexivity|].
  apply (NewHandler_groups_of_handler (Examples.env Examples.withIdle)
           "ts-dns.toml" Examples.withIdle);
    [vm_compute; reflexivity | reflexivity].
Defined.

(** X19: a returned handler listens on the configured address, or on
    [:53] when none is configured, and never on an empty one; its hosts
    readers are the ones [GenHostsReader] returns for the configuration,
    and its cache is the one [GenCache] builds for it. *)
Theorem NewHandler_handler_fields (env : conf.Env) (filename : string)
    (h : inbound.Handler)
    (Hok : fst (conf.NewHandler env filename) = Ok h) :
  ∃ config,
    conf.DecodeFile env filename = Success config
    ∧ inbound.Listen h
      = (if String.eqb (conf.Listen config) "" then ":53"
         else conf.Listen config)
    ∧ inbound.Listen h ≠ ""
    ∧ fst (conf.GenHostsReader env config) = Ok (inbound.HostsReaders h)
    ∧ ∃ config', conf.GenCache config = Ok (config', inbound.Cache h).
Proof.
  destruct (NewHandler_Ok_inv env _ _ Hok)
    as (config & gfwText & cnipText & section & config' & groups
        & Hdecode & _ & _ & Hsection & Hgen & _ & _ & _ & Hlisten & Hhosts).
  exists config. split; [exact Hdecode|].
  assert (Hl : inbound.Listen h
               = if String.eqb (conf.Listen config) "" then ":53"
                 else conf.Listen config)
    by (rewrite Hlisten, SetDefault_eq; reflexivity).
  split; [exact Hl|]. split.
  - rewrite Hl. destruct (String.eqb (conf.Listen config) "") eqn:E;
      [discriminate | now apply String.eqb_neq].
  - split; [exact Hhosts|].
    assert (Hsec : conf.ConfCache (conf.SetDefault config) = Some section)
      by (now rewrite SetDefault_ConfCache).
    rewrite (GenCache_Some _ _ Hsec) in Hgen. cbv zeta in Hgen.
    injection Hgen as _ <-.
    rewrite (GenCache_Some _ _ Hsection). cbv zeta. eauto.
Qed.

Lemma NewHandler_handler_fields_witness :
  ∃ h,
    fst (conf.NewHandler (Examples.env Cases.bare) "ts-dns.toml") = Ok h
    ∧ inbound.Listen h = ":53".
Proof.
  eexists. split; [vm_compute; reflexivity|].
  destruct (NewHandler_handler_fields (Examples.env Cases.bare)
              "ts-dns.toml" _ ltac:(vm_compute; reflexivity))
    as (config & Hdecode & Hlisten & _).
  injection Hdecode as <-. exact Hlisten.
Defined.

(** X20: whatever [NewHandler] does, its log is a run of warnings,
    followed by one error line exactly when it returns an error; that
    line's message ends with the error returned.  A returned handler and
    a panic leave warnings only. *)
Theorem NewHandler_error_is_logged (env : conf.Env) (filename : string) :
  ∃ warnings,
    Forall (λ e, log.level e = log.WarnLevel) warnings
    ∧ ((∃ h, conf.NewHandler env filename = (Ok h, warnings))
       ∨ (∃ msg, conf.NewHandler env filename = (Panic msg, warnings))
       ∨ ∃ err entry prefix,
           conf.NewHandler env filename = (Error err, warnings ++ [entry])
           ∧ log.level entry = log.ErrorLevel
           ∧ log.message entry = prefix +:+ err).
Proof.
  destruct (conf.DecodeFile env filename) as [config|err] eqn:Hdecode.
  2: { exists []. split; [constructor|]. right. right.
       exists err, (Entries.readConfig filename err), "read config error: ".
       rewrite (NewHandler_decode_failure_eq env _ _ Hdecode). auto. }
  destruct (conf.ReadFile env (conf.GFWList (conf.SetDefault config)))
    as [gfwText|err] eqn:Hgfw.
  2: { exists []. split; [constructor|]. right. right.
       exists err,
         (Entries.readGFWList (conf.GFWList (conf.SetDefault config)) err),
         "read gfwlist error: ".
       split; [|auto]. apply injective_projections.
       - rewrite NewHandler_fst, Hdecode, Hgfw. reflexivity.
       - rewrite NewHandler_snd, Hdecode, Hgfw. reflexivity. }
  destruct (conf.ReadFile env (conf.CNIP (conf.SetDefault config)))
    as [cnipText|err] eqn:Hcnip.
  2: { exists []. split; [constructor|]. right. right.
       exists err,
         (Entries.readCNIP (conf.CNIP (conf.SetDefault config)) err),
         "read cnip error: ".
       split; [|auto]. apply injective_projections.
       - rewrite NewHandler_fst, Hdecode, Hgfw.
         unfold cache.NewRamSetByFile. rewrite Hcnip. reflexivity.
       - rewrite NewHandler_snd, Hdecode, Hgfw, Hcnip. reflexivity. }
  destruct (conf.ConfCache config) as [section|] eqn:Hsection.
  2: { exists (Entries.unreadableHosts env (conf.HostsFiles config)).
       split; [apply unreadableHosts_warnings|]. right. left.
       exists nilDereference. apply injective_projections.
       - rewrite NewHandler_fst, Hdecode, Hgfw.
         unfold cache.NewRamSetByFile, conf.GenCache.
         rewrite Hcnip, SetDefault_ConfCache, Hsection. reflexivity.
       - rewrite NewHandler_snd, Hdecode, Hgfw, Hcnip, Hsection.
         apply app_nil_r. }
  destruct (NewHandler_late env _ _ _ _ _ Hdecode Hgfw Hcnip Hsection)
    as (cnip & dnsCache & -> & _).
  destruct (groups_loop_cases env (conf.Groups config) ∅)
    as [[_ (groups & ->)]|(pre & name & g & post & err & _ & _ & _ & ->)];
    cbn [fst snd].
  - exists (Entries.unreadableHosts env (conf.HostsFiles config)
            ++ Entries.concurrentGroups (conf.Groups config)).
    split.
    { apply Forall_app. split;
        [apply unreadableHosts_warnings | apply concurrentGroups_warnings]. }
    destruct (invalidGroups_cases groups) as [-> |[-> | ->]].
    + right. right. exists conf.emptyGroupError, Entries.emptyGroup, "".
      rewrite <- app_assoc. auto.
    + left. eexists. now rewrite app_nil_r.
    + right. left. eexists. now rewrite app_nil_r.
  - exists (Entries.unreadableHosts env (conf.HostsFiles config)
            ++ Entries.concurrentGroups (pre ++ [(name, g)])).
    split.
    { apply Forall_app. split;
        [apply unreadableHosts_warnings | apply concurrentGroups_warnings]. }
    right. right. exists err, (Entries.createIPSet err), "create ipset error: ".
    rewrite app_nil_r, <- app_assoc. auto.
Qed.

(** X21: when [NewHandler] returns a handler, its log holds one warning
    for each hosts file that could not be read, in the order of the
    files, then one warning for each group with [concurrent] set, in the
    order the groups were ranged over, and nothing else. *)
Theorem NewHandler_success_log (env : conf.Env) (filename : string)
    (config : conf.Conf) (h : inbound.Handler)
    (Hok : fst (conf.NewHandler env filename) = Ok h)
    (Hdecode : conf.DecodeFile env filename = Success config) :
  snd (conf.NewHandler env filename)
  = Entries.unreadableHosts env (conf.HostsFiles config)
    ++ Entries.concurrentGroups (conf.Groups config).
Proof.
  destruct (NewHandler_Ok_inv env _ _ Hok)
    as (config0 & gfwText & cnipText & section & config' & groups
        & Hdecode0 & Hgfw & Hcnip & Hsection & _ & Hloop & Hvalid & _).
  rewrite Hdecode in Hdecode0. injection Hdecode0 as <-.
  rewrite NewHandler_snd, Hdecode, Hgfw, Hcnip, Hsection, Hloop, Hvalid.
  destruct (groups_loop_through env (conf.Groups config) ∅
              (groups_loop_all_made env _ _ _ Hloop)) as (groups' & _ & ->).
  now rewrite app_nil_r.
Qed.

Lemma NewHandler_success_log_witness :
  snd (conf.NewHandler (Examples.env Examples.full) "ts-dns.toml")
  = Entries.unreadableHosts (Examples.env Examples.full) ["/etc/hosts"]
    ++ Entries.concurrentGroups (conf.Groups Examples.full).
Proof.
  eapply (NewHandler_success_log (Examples.env Examples.full) "ts-dns.toml"
            Examples.full);
    [vm_compute; reflexivity | reflexivity].
Defined.

Lemma bind_ext {A B : Type} (m : M A) (k k' : A → M B) :
  (∀ a, k a = k' a) → bind m k = bind m k'.
Proof.
  intros H. destruct m as [[a|err|msg] l]; simpl; [|reflexivity|reflexivity].
  now rewrite H.
Qed.

(** X22: when no group of the decoded configuration names an IP set,
    [NewHandler] never calls [ipset.New]: with any other kernel it
    returns the same result and writes the same log. *)
Theorem NewHandler_kernel_untouched (env : conf.Env)
    (kernel' : string → string → ipset.Params → fallible ipset.IPSet)
    (filename : string)
    (Hnone : ∀ config name g,
        conf.DecodeFile env filename = Success config →
        In (name, g) (conf.Groups config) → conf.IPSet g = "") :
  conf.NewHandler
    {| conf.DecodeFile := conf.DecodeFile env;
       conf.ReadFile := conf.ReadFile env;
       conf.ipsetNew := kernel' |}
    filename
  = conf.NewHandler env filename.
Proof.
  set (env' := {| conf.DecodeFile := conf.DecodeFile env;
                  conf.ReadFile := conf.ReadFile env;
                  conf.ipsetNew := kernel' |}).
  assert (Hloop : ∀ l groups,
            (∀ name g, In (name, g) l → conf.IPSet g = "") →
            conf.forRange (conf.groupLoop env') l groups
            = conf.forRange (conf.groupLoop env) l groups).
  { induction l as [|[n g] l IH]; intros groups Hl; [reflexivity|].
    assert (Hstep : conf.groupLoop env' groups (n, g)
                    = conf.groupLoop env groups (n, g)).
    { unfold conf.groupLoop, conf.GenIPSet.
      rewrite (Hl n g (or_introl eq_refl)). reflexivity. }
    cbn [conf.forRange]. rewrite Hstep. apply bind_ext.
    intros groups'. apply IH. intros name g' H. apply (Hl name g').
    now right. }
  assert (Hhosts : ∀ c, conf.GenHostsReader env' c
                        = conf.GenHostsReader env c) by reflexivity.
  apply injective_projections.
  - rewrite !NewHandler_fst.
    change (conf.DecodeFile env') with (conf.DecodeFile env).
    change (conf.ReadFile env') with (conf.ReadFile env).
    destruct (conf.DecodeFile env filename) as [config|err] eqn:Hdecode;
      [|reflexivity].
    rewrite Hhosts, Hloop by (intros name g; now apply Hnone).
    reflexivity.
  - rewrite !NewHandler_snd.
    change (conf.DecodeFile env') with (conf.DecodeFile env).
    change (conf.ReadFile env') with (conf.ReadFile env).
    destruct (conf.DecodeFile env filename) as [config|err] eqn:Hdecode;
      [|reflexivity].
    rewrite Hloop by (intros name g; now apply Hnone).
    reflexivity.
Qed.

Lemma NewHandler_kernel_untouched_witness :
  conf.NewHandler
    {| conf.DecodeFile := conf.DecodeFile (Examples.env Cases.bare);
       conf.ReadFile := conf.ReadFile (Examples.env Cases.bare);
       conf.ipsetNew := Cases.noKernel |}
    "ts-dns.toml"
  = conf.NewHandler (Examples.env Cases.bare) "ts-dns.toml".
Proof.
  apply (NewHandler_kernel_untouched (Examples.env Cases.bare)).
  intros config name g [= <-] [[= <- <-]|[[= <- <-]|[]]]; reflexivity.
Defined.

(** X23: [GenIPSet] returns a nil set exactly when the group names none;
    otherwise it returns what [ipset.New] gives for the group's set name,
    the type [hash:ip] and the group's timeout, the set or the error. *)
Theorem GenIPSet_result (env : conf.Env) (g : conf.Group) :
  (conf.GenIPSet env g = Success None ↔ conf.IPSet g = "")
  ∧ (∀ ipSet,
       conf.GenIPSet env g = Success (Some ipSet)
       ↔ conf.IPSet g ≠ ""
         ∧ conf.ipsetNew env (conf.IPSet g) "hash:ip"
             {| ipset.Timeout := conf.IPSetTTL g |}
           = Success ipSet)
  ∧ (∀ err,
       conf.GenIPSet env g = Failure err
       ↔ conf.IPSet g ≠ ""
         ∧ conf.ipsetNew env (conf.IPSet g) "hash:ip"
             {| ipset.Timeout := conf.IPSetTTL g |}
           = Failure err).
Proof.
  split; [apply GenIPSet_None|].
  unfold conf.GenIPSet.
  destruct (String.eqb (conf.IPSet g) "") eqn:E; simpl.
  - apply String.eqb_eq in E.
    split; intros x; (split; [discriminate | intros [H _]; contradiction]).
  - apply String.eqb_neq in E.
    destruct (conf.ipsetNew env (conf.IPSet g) "hash:ip" _) as [s|e];
      split; intros x; split;
      try discriminate;
      try (intros [= ->]; auto);
      try (intros [_ [= ->]]; reflexivity);
      try (intros [_ H]; discriminate H).
Qed.
